(** * PolyScan: the chunked document analyzer (chunked_analyzer.py)

    A shallow embedding of the document-to-report pipeline: sentence
    extraction, chunk partitioning, per-chunk analysis, fusion and the
    report sink, followed by the properties of the pipeline.

    Conventions of the embedding.
    - A Python [str] is a list of code points.  The model covers the
      code points U+0000..U+00FF, one [ascii] per code point, so that
      [len], slicing, [str.lower] and [str.isspace] are the Python ones on
      that range.
    - Lengths and indices are natural numbers; [str.rfind], which answers
      [-1], is an integer.
    - Console output is a list of [message]s (the literal banners carry
      pictographs outside the modelled range and are kept symbolic).
    - The two external services, the Bedrock [converse] call and
      BeautifulSoup's text extraction, are parameters of the pipeline.
    - The environment is assumed to carry the run: [print] succeeds (the
      console can encode what is printed), and a file that could be
      opened for writing is written in full.
    - Files are known by their path names: a file reachable under two
      names (a link) is outside the model. *)

From Stdlib Require Import Ascii String ZArith.
From Equations Require Import Equations.
From stdpp Require Import gmap strings list pretty.

Set Default Proof Using "Type".
Set Warnings "-abstract-large-number".

(** ** Python strings *)

Abbreviation pystr := (list ascii).

(** A string literal of the source. *)
Definition lit (s : string) : pystr := list_ascii_of_string s.

Definition NL : ascii := "010"%char.

(** [str(n)] for a non-negative integer. *)
Definition str_of_nat (n : nat) : pystr := lit (pretty n).

(** [sep.join(parts)]. *)
Fixpoint join (sep : pystr) (parts : list pystr) : pystr :=
  match parts with
  | [] => []
  | [x] => x
  | x :: rest => x ++ sep ++ join sep rest
  end.

(** The text of a triple-quoted block, given line by line. *)
Definition text_lines (ls : list string) : pystr := join [NL] (lit <$> ls).

(** [l[i:j]] for [0 <= i]. *)
Definition slice {A} (l : list A) (i j : nat) : list A := take (j - i) (drop i l).

(** [c.isspace()], which is also the class [\s] of [re] on [str] patterns. *)
Definition isspace (c : ascii) : bool :=
  let n := N_of_ascii c in
  ((9 <=? n) && (n <=? 13) || (28 <=? n) && (n <=? 32) || (n =? 133) || (n =? 160))%N.

Fixpoint lstrip (s : pystr) : pystr :=
  match s with
  | [] => []
  | c :: s' => if isspace c then lstrip s' else s
  end.

Definition rstrip (s : pystr) : pystr := reverse (lstrip (reverse s)).

(** [s.strip()]. *)
Definition strip (s : pystr) : pystr := rstrip (lstrip s).

Definition lower_char (c : ascii) : ascii :=
  let n := N_of_ascii c in
  if ((65 <=? n) && (n <=? 90) || (192 <=? n) && (n <=? 222) && negb (n =? 215))%N
  then ascii_of_N (n + 32) else c.

(** [s.lower()]. *)
Definition lower (s : pystr) : pystr := lower_char <$> s.

Fixpoint split_on (sep : ascii) (cur : pystr) (s : pystr) : list pystr :=
  match s with
  | [] => [cur]
  | c :: s' =>
      if Ascii.eqb c sep then cur :: split_on sep [] s'
      else split_on sep (cur ++ [c]) s'
  end.

(** [s.split(sep)] for a one-character separator. *)
Definition str_split (sep : ascii) (s : pystr) : list pystr := split_on sep [] s.

(** [parts[-1]] (the parts of a split are never the empty list). *)
Definition last_part (parts : list pystr) : pystr := default [] (last parts).

Fixpoint rfind_go (c : ascii) (s : pystr) (i found : Z) : Z :=
  match s with
  | [] => found
  | x :: s' => rfind_go c s' (i + 1)%Z (if Ascii.eqb x c then i else found)
  end.

(** [s.rfind(c)]: the last index of [c], or [-1]. *)
Definition rfind (c : ascii) (s : pystr) : Z := rfind_go c s 0%Z (-1)%Z.

(** [range(start, stop, step)] for a positive step. *)
Equations? range (start stop step : nat) : list nat by wf (stop - start) lt :=
  range start stop step with decide (start < stop ∧ 0 < step) => {
    | left _ := start :: range (start + step) stop step;
    | right _ := [] }.
Proof. lia. Qed.

(** ** Regular expressions of the loader

    Each of the four patterns is embedded as the scanner that [re] runs
    for it: leftmost match, greedy repetition, scan resumed after the
    match. *)
Module Re.

Definition is_terminator (c : ascii) : bool :=
  Ascii.eqb c "." || Ascii.eqb c "!" || Ascii.eqb c "?".

(** The lookbehind [(?<=[.!?])] at the end of the piece read so far. *)
Definition lookbehind (cur : pystr) : bool :=
  match last cur with
  | Some c => is_terminator c
  | None => false
  end.

(** [re.split(r'(?<=[.!?])\s+', text)]: [gap] is set while a match of
    [\s+] is being consumed, [cur] is the piece read since the last
    match. *)
Fixpoint split_go (gap : bool) (cur : pystr) (s : pystr) : list pystr :=
  match s with
  | [] => [cur]
  | c :: s' =>
      if isspace c then
        if gap then split_go true cur s'
        else if lookbehind cur then cur :: split_go true [] s'
        else split_go false (cur ++ [c]) s'
      else split_go false (cur ++ [c]) s'
  end.

Definition split_sentences (text : pystr) : list pystr := split_go false [] text.

(** After a ["<"]: one character other than [">"] and a [">"] later on. *)
Definition tag_follows (s : pystr) : bool :=
  match s with
  | [] => false
  | c :: r => negb (Ascii.eqb c ">") && existsb (λ x, Ascii.eqb x ">") r
  end.

(** [re.sub(r'<[^>]+>', ' ', s)]. *)
Fixpoint sub_tags_go (in_tag : bool) (s : pystr) : pystr :=
  match s with
  | [] => []
  | c :: s' =>
      if in_tag then
        if Ascii.eqb c ">" then sub_tags_go false s' else sub_tags_go true s'
      else if Ascii.eqb c "<" then
        if tag_follows s' then " "%char :: sub_tags_go true s' else c :: sub_tags_go false s'
      else c :: sub_tags_go false s'
  end.

Definition sub_tags (s : pystr) : pystr := sub_tags_go false s.

(** [re.sub(r'\s+', ' ', s)]. *)
Fixpoint sub_spaces_go (in_run : bool) (s : pystr) : pystr :=
  match s with
  | [] => []
  | c :: s' =>
      if isspace c then
        if in_run then sub_spaces_go true s' else " "%char :: sub_spaces_go true s'
      else c :: sub_spaces_go false s'
  end.

Definition sub_spaces (s : pystr) : pystr := sub_spaces_go false s.

(** The body [[^>]*\?>] of a processing instruction: the text up to
    the first [">"] ends with ["?"]. *)
Fixpoint pi_body (after_question : bool) (s : pystr) : bool :=
  match s with
  | [] => false
  | c :: s' => if Ascii.eqb c ">" then after_question else pi_body (Ascii.eqb c "?") s'
  end.

(** After a ["<"]: a ["?"], then the body. *)
Definition pi_follows (s : pystr) : bool :=
  match s with
  | [] => false
  | c :: r => Ascii.eqb c "?" && pi_body false r
  end.

(** [re.sub(r'<\?[^>]*\?>', '', s)]. *)
Fixpoint sub_pi_go (in_pi : bool) (s : pystr) : pystr :=
  match s with
  | [] => []
  | c :: s' =>
      if in_pi then
        if Ascii.eqb c ">" then sub_pi_go false s' else sub_pi_go true s'
      else if Ascii.eqb c "<" then
        if pi_follows s' then sub_pi_go true s' else c :: sub_pi_go false s'
      else c :: sub_pi_go false s'
  end.

Definition sub_pi (s : pystr) : pystr := sub_pi_go false s.

End Re.

(** ** Sentence extraction *)

(** [extract_sentences_from_text]. *)
Definition extract_sentences_from_text (text : pystr) : list pystr :=
  let sentences := Re.split_sentences text in
  s ← sentences;
  if negb (bool_decide (strip s = [])) && (10 <? length (strip s)) then [strip s] else [].

(** ** The world of a run *)

(** What [open(path).read()] finds at a path that exists: text, or
    something whose reading raises (a directory, undecodable bytes). *)
Inductive file :=
  | Text (content : pystr)
  | Unreadable (diagnostic : pystr).

(** A [converse] request: model, prompt and token budget (the sampling
    temperature is the constant 0.1). *)
Record request := Request {
  modelId : pystr;
  prompt : pystr;
  maxTokens : nat
}.

(** What a call of an external service does: return text, or raise an
    exception [e] whose [str(e)] is the diagnostic.  For [converse] a
    response without [output.message.content[0].text] raises as well. *)
Inductive outcome :=
  | Returned (text : pystr)
  | Raised (diagnostic : pystr).

(** The lines printed on standard output. *)
Inductive message :=
  | MsgUsage
  | MsgFileNotFound (file_path : pystr)
  | MsgStarting
  | MsgFile (file_path : pystr)
  | MsgUnsupported (ext : pystr)
  | MsgErrorTXT (diagnostic : pystr)
  | MsgErrorHTML (diagnostic : pystr)
  | MsgErrorXML (diagnostic : pystr)
  | MsgRule
  | MsgTitle
  | MsgReport (final_report : pystr).

Record world := World {
  fs : gmap pystr file;            (* the files that exist *)
  write_error : pystr → option pystr; (* paths that cannot be opened for writing *)
  stdout : list message;           (* printed so far *)
  calls : list request             (* converse calls made so far *)
}.

(** How the process ends: [main] returns (status 0) or an exception
    leaves it (traceback, status 1). *)
Inductive exit_status := Exit0 | Exit1.

(** Computations of the pipeline thread the world. *)
Definition M (A : Type) : Type := world → A * world.

Global Instance M_ret : MRet M := λ A a w, (a, w).
Global Instance M_bind : MBind M := λ A B k m w, let (a, w') := m w in k a w'.

Definition print (msg : message) : M unit := λ w,
  (tt, World (fs w) (write_error w) (stdout w ++ [msg]) (calls w)).

(** [os.path.exists(path)]. *)
Definition path_exists (path : pystr) : M bool := λ w,
  (bool_decide (is_Some (fs w !! path)), w).

(** [open(path, 'r', encoding='utf-8')] followed by [f.read()].  The
    diagnostic of an absent path is abridged (Python appends the path);
    [main] only reads a path that exists. *)
Definition read_text (path : pystr) : M outcome := λ w,
  (match fs w !! path with
   | Some (Text content) => Returned content
   | Some (Unreadable e) => Raised e
   | None => Raised (lit "[Errno 2] No such file or directory")
   end, w).

(** [open(path, 'w')] followed by [f.write(text)]: the file is created
    or replaced. *)
Definition write_text (path text : pystr) : M (option pystr) := λ w,
  match write_error w path with
  | Some e => (Some e, w)
  | None => (None, World (<[path := Text text]> (fs w)) (write_error w) (stdout w) (calls w))
  end.

(** [for x in l: acc = body(x, acc)]. *)
Fixpoint for_each {A S} (body : A → S → M S) (l : list A) (acc : S) : M S :=
  match l with
  | [] => mret acc
  | x :: l' => acc' ← body x acc; for_each body l' acc'
  end.

(** [enumerate(l, start)]. *)
Fixpoint enumerate {A} (start : nat) (l : list A) : list (nat * A) :=
  match l with
  | [] => []
  | x :: l' => (start, x) :: enumerate (S start) l'
  end.

(** ** os.path *)

(** [posixpath.basename]. *)
Definition basename (p : pystr) : pystr := drop (Z.to_nat (rfind "/" p + 1)) p.

(** [posixpath.splitext]: the extension starts at the last dot of the
    last component, unless only dots precede it there. *)
Definition splitext (p : pystr) : pystr * pystr :=
  let sepIndex := rfind "/" p in
  let dotIndex := rfind "." p in
  if (sepIndex <? dotIndex)%Z
     && existsb (λ c, negb (Ascii.eqb c "."))
          (slice p (Z.to_nat (sepIndex + 1)) (Z.to_nat dotIndex))
  then (take (Z.to_nat dotIndex) p, drop (Z.to_nat dotIndex) p)
  else (p, []).

(** ** The pipeline *)

Definition MODEL_ID : pystr := lit "global.anthropic.claude-sonnet-4-5-20250929-v1:0".

Definition XML_TEXT_LIMIT : nat := 50000.
Definition XML_SENTENCE_LIMIT : nat := 200.
Definition TEXT_TRUNCATED : pystr := lit "... [truncated for performance]".
Definition SENTENCES_TRUNCATED : pystr :=
  lit "XML Phrase 201: [Additional content truncated for performance]".

(** [f"XML Phrase {i+1}: {sentence}"]. *)
Definition xml_phrase (i : nat) (sentence : pystr) : pystr :=
  lit "XML Phrase " ++ str_of_nat (i + 1) ++ lit ": " ++ sentence.

(** The three substitutions of [read_xml_sentences]. *)
Definition xml_plain_text (content : pystr) : pystr :=
  let text := Re.sub_tags content in
  let text := strip (Re.sub_spaces text) in
  Re.sub_pi text.

(** The text limit of [read_xml_sentences]. *)
Definition xml_limit_text (text : pystr) : pystr :=
  if XML_TEXT_LIMIT <? length text
  then take XML_TEXT_LIMIT text ++ TEXT_TRUNCATED
  else text.

(** The sentence limit and the numbering of [read_xml_sentences]. *)
Definition xml_number_sentences (xml_sentences : list pystr) : list pystr :=
  if XML_SENTENCE_LIMIT <? length xml_sentences then
    let xml_sentences := take XML_SENTENCE_LIMIT xml_sentences in
    ([] ++ imap xml_phrase xml_sentences) ++ [SENTENCES_TRUNCATED]
  else [] ++ imap xml_phrase xml_sentences.

(** [chunks = [sentences[i:i + chunk_size] for i in range(0, len(sentences), chunk_size)]]. *)
Definition make_chunks (sentences : list pystr) (chunk_size : nat) : list (list pystr) :=
  (λ i, slice sentences i (i + chunk_size)) <$> range 0 (length sentences) chunk_size.

Definition CHUNK_SIZE : nat := 400.

(** The prompt of [analyze_chunk]. *)
Definition chunk_prompt (sentences : list pystr) (chunk_num total_chunks : nat) : pystr :=
  let content := join [NL] sentences in
  join [NL]
    ([lit "Extract key information from this regulatory document chunk "
        ++ str_of_nat chunk_num ++ lit "/" ++ str_of_nat total_chunks ++ lit ":";
      [];
      content]
     ++ (lit <$>
      ["";
       "Extract:";
       "1. Key provisions and financial amounts";
       "2. Affected sectors and companies";
       "3. Implementation timelines";
       "4. Economic impacts";
       "";
       "Be concise and factual."])).

(** The fixed structure that the prompt of [fusion_analysis] asks for. *)
Definition REPORT_STRUCTURE : list string :=
      ["1. BILL SUMMARY:";
       "[Key facts about the bill - what it does, main provisions, budget amounts]";
       "";
       "2. TOP 5 IMPACTED SECTORS:";
       "Sector 1: [Name] - Impact Score: [1-10] - [Description]";
       "Sector 2: [Name] - Impact Score: [1-10] - [Description] ";
       "Sector 3: [Name] - Impact Score: [1-10] - [Description]";
       "Sector 4: [Name] - Impact Score: [1-10] - [Description]";
       "Sector 5: [Name] - Impact Score: [1-10] - [Description]";
       "";
       "3. TOP 3 STOCKS PER SECTOR:";
       "Sector 1 Stocks:";
       "- [TICKER]: [Company] - [Impact description]";
       "- [TICKER]: [Company] - [Impact description]";
       "- [TICKER]: [Company] - [Impact description]";
       "";
       "Sector 2 Stocks:";
       "- [TICKER]: [Company] - [Impact description]";
       "- [TICKER]: [Company] - [Impact description] ";
       "- [TICKER]: [Company] - [Impact description]";
       "";
       "[Continue for all 5 sectors]";
       "";
       "4. MARKET PREDICTIONS:";
       "Mid-term (6-18 months): [Predictions]";
       "Long-term (2-5 years): [Predictions]"].

(** The prompt of [fusion_analysis]. *)
Definition fusion_prompt (chunk_results : list pystr) : pystr :=
  let combined_content := join [NL; NL] chunk_results in
  join [NL]
    ([lit "Based on these chunk analyses of a regulatory bill, provide a consolidated report:";
      [];
      combined_content]
     ++ (lit <$>
      ["";
       "Provide EXACTLY this structure:";
       ""]
      ++ REPORT_STRUCTURE ++
      ["";
       "Be specific with company names and stock tickers."])).

(** [f"CHUNK {i}:\n{result}"]. *)
Definition chunk_label (i : nat) (result : pystr) : pystr :=
  lit "CHUNK " ++ str_of_nat i ++ lit ":" ++ [NL] ++ result.

(** [f"consolidated_analysis_{base_name}.txt"]. *)
Definition output_file_of (file_path : pystr) : pystr :=
  let base_name := (splitext (basename file_path)).1 in
  lit "consolidated_analysis_" ++ base_name ++ lit ".txt".

Section Pipeline.

(** [bedrock.converse], with the number of calls made before this one:
    the service may answer the same request differently each time. *)
Variable converse : nat → request → outcome.

(** BeautifulSoup: parse with [html.parser], drop the [script] and
    [style] elements, [get_text()]. *)
Variable soup_get_text : pystr → outcome.

(** A [converse] call followed by [response['output']['message']['content'][0]['text']]. *)
Definition call_converse (req : request) : M outcome := λ w,
  (converse (length (calls w)) req,
   World (fs w) (write_error w) (stdout w) (calls w ++ [req])).

(** [read_txt_sentences]. *)
Definition read_txt_sentences (txt_path : pystr) : M (list pystr) :=
  r ← read_text txt_path;
  match r with
  | Returned content => mret (extract_sentences_from_text content)
  | Raised e => _ ← print (MsgErrorTXT e); mret []
  end.

(** [read_html_sentences]. *)
Definition read_html_sentences (html_path : pystr) : M (list pystr) :=
  r ← read_text html_path;
  match r with
  | Returned content =>
      match soup_get_text content with
      | Returned text => mret (extract_sentences_from_text text)
      | Raised e => _ ← print (MsgErrorHTML e); mret []
      end
  | Raised e => _ ← print (MsgErrorHTML e); mret []
  end.

(** [read_xml_sentences]. *)
Definition read_xml_sentences (xml_path : pystr) : M (list pystr) :=
  r ← read_text xml_path;
  match r with
  | Returned content =>
      let text := xml_plain_text content in
      let text := xml_limit_text text in
      let xml_sentences := extract_sentences_from_text text in
      mret (xml_number_sentences xml_sentences)
  | Raised e => _ ← print (MsgErrorXML e); mret []
  end.

(** [ext = file_path.lower().split('.')[-1]]. *)
Definition file_ext (file_path : pystr) : pystr :=
  last_part (str_split "." (lower file_path)).

(** [read_file_sentences]. *)
Definition read_file_sentences (file_path : pystr) : M (list pystr) :=
  let ext := file_ext file_path in
  if bool_decide (ext = lit "xml") then read_xml_sentences file_path
  else if bool_decide (ext = lit "html") then read_html_sentences file_path
  else if bool_decide (ext = lit "txt") then read_txt_sentences file_path
  else _ ← print (MsgUnsupported ext); mret [].

(** [analyze_chunk]. *)
Definition analyze_chunk (sentences : list pystr) (chunk_num total_chunks : nat)
  : M pystr :=
  let prompt := chunk_prompt sentences chunk_num total_chunks in
  r ← call_converse (Request MODEL_ID prompt 1500);
  match r with
  | Returned text => mret text
  | Raised e => mret (lit "Chunk " ++ str_of_nat chunk_num ++ lit " analysis failed: " ++ e)
  end.

(** [fusion_analysis]. *)
Definition fusion_analysis (chunk_results : list pystr) : M pystr :=
  let prompt := fusion_prompt chunk_results in
  r ← call_converse (Request MODEL_ID prompt 3000);
  match r with
  | Returned text => mret text
  | Raised e => mret (lit "Fusion analysis failed: " ++ e)
  end.

(** The loop of [main] over [enumerate(chunks, 1)]. *)
Definition analyze_chunks (chunks : list (list pystr)) : M (list pystr) :=
  for_each
    (λ '(i, chunk) results,
       result ← analyze_chunk chunk i (length chunks);
       mret (results ++ [chunk_label i result]))
    (enumerate 1 chunks) [].

(** [main], with [sys.argv]. *)
Definition main (argv : list pystr) : M exit_status :=
  match argv with
  | [_; file_path] =>
      found ← path_exists file_path;
      if negb found then
        _ ← print (MsgFileNotFound file_path); mret Exit0
      else
        _ ← print MsgStarting;
        _ ← print (MsgFile file_path);
        sentences ← read_file_sentences file_path;
        if bool_decide (sentences = []) then mret Exit0
        else
          let chunk_size := CHUNK_SIZE in
          let chunks := make_chunks sentences chunk_size in
          results ← analyze_chunks chunks;
          final_report ← fusion_analysis results;
          _ ← print MsgRule;
          _ ← print MsgTitle;
          _ ← print MsgRule;
          _ ← print (MsgReport final_report);
          _ ← print MsgRule;
          let output_file := output_file_of file_path in
          failure ← write_text output_file final_report;
          match failure with
          | None => mret Exit0
          | Some _ => mret Exit1
          end
  | _ => _ ← print MsgUsage; mret Exit0
  end.

End Pipeline.

(** ** A run in closed form

    The requests a run sends and the texts it gets back, written as
    functions of the chunks: what the loop of [main] is shown to compute. *)
Section Run.

Variable converse : nat → request → outcome.
Variable soup_get_text : pystr → outcome.

(** The request of [analyze_chunk]. *)
Definition chunk_request (chunk : list pystr) (i total : nat) : request :=
  Request MODEL_ID (chunk_prompt chunk i total) 1500.

(** The text of chunk [i] when its call is call number [call]. *)
Definition chunk_text (call : nat) (chunk : list pystr) (i total : nat) : pystr :=
  match converse call (chunk_request chunk i total) with
  | Returned text => text
  | Raised e => lit "Chunk " ++ str_of_nat i ++ lit " analysis failed: " ++ e
  end.

Definition run_requests (chunks : list (list pystr)) : list request :=
  imap (λ k chunk, chunk_request chunk (k + 1) (length chunks)) chunks.

Definition run_texts (first_call : nat) (chunks : list (list pystr)) : list pystr :=
  imap (λ k chunk, chunk_text (first_call + k) chunk (k + 1) (length chunks)) chunks.

(** The labelled results handed to [fusion_analysis]. *)
Definition run_results (first_call : nat) (chunks : list (list pystr)) : list pystr :=
  imap (λ k text, chunk_label (k + 1) text) (run_texts first_call chunks).

(** The request of [fusion_analysis]. *)
Definition fusion_request (chunk_results : list pystr) : request :=
  Request MODEL_ID (fusion_prompt chunk_results) 3000.

(** The report when the fusion call is call number [call]. *)
Definition fusion_text (call : nat) (chunk_results : list pystr) : pystr :=
  match converse call (fusion_request chunk_results) with
  | Returned text => text
  | Raised e => lit "Fusion analysis failed: " ++ e
  end.

(** The loader as [main] runs it, after its two banner lines. *)
Definition loading (file_path : pystr) (w : world) : list pystr * world :=
  read_file_sentences soup_get_text file_path
    (World (fs w) (write_error w) ((stdout w ++ [MsgStarting]) ++ [MsgFile file_path])
       (calls w)).

End Run.

(** ** Reports in the fixed structure *)

(** A report that follows the structure asked of the model: it opens with
    the first section heading of [REPORT_STRUCTURE] and has the other three
    headings after it, in order. *)
Definition structured (report : pystr) : Prop :=
  ∃ summary sectors stocks predictions,
    report = lit "1. BILL SUMMARY:" ++ summary
             ++ lit "2. TOP 5 IMPACTED SECTORS:" ++ sectors
             ++ lit "3. TOP 3 STOCKS PER SECTOR:" ++ stocks
             ++ lit "4. MARKET PREDICTIONS:" ++ predictions.

(** ** Sentence boundaries, as a specification *)

(** A terminator directly followed by whitespace somewhere in [p]. *)
Fixpoint has_boundary (p : pystr) : bool :=
  match p with
  | a :: (b :: _) as rest => Re.is_terminator a && isspace b || has_boundary rest
  | _ => false
  end.

(** [segments text pieces]: [pieces] are the fragments of [text] between
    its sentence boundaries.  Consecutive pieces are separated by a
    maximal non-empty run of whitespace that follows a terminator, and
    no piece contains a boundary of its own. *)
Inductive segments : pystr → list pystr → Prop :=
  | segments_last p :
      has_boundary p = false → segments p [p]
  | segments_gap p gap rest pieces :
      has_boundary p = false →
      Re.lookbehind p = true →
      gap ≠ [] → Forall (λ c, isspace c = true) gap →
      lstrip rest = rest →
      segments rest pieces →
      segments (p ++ gap ++ rest) (p :: pieces).

(** The leading whitespace that [lstrip] removes. *)
Fixpoint lspaces (s : pystr) : pystr :=
  match s with
  | [] => []
  | c :: s' => if isspace c then c :: lspaces s' else []
  end.

(** ** The dashboard (app.py): what it shares with the analyzer *)

(** [ALLOWED_EXTENSIONS], a set used for membership only. *)
Definition ALLOWED_EXTENSIONS : list pystr := [lit "xml"; lit "html"; lit "pdf"; lit "txt"].

(** [s.rsplit(sep, 1)] for a one-character separator. *)
Definition rsplit1 (sep : ascii) (s : pystr) : list pystr :=
  let i := rfind sep s in
  if (i <? 0)%Z then [s] else [take (Z.to_nat i) s; drop (Z.to_nat i + 1) s].

(** [allowed_file]; [None] stands for the [IndexError] of [parts[1]]. *)
Definition allowed_file (filename : pystr) : option bool :=
  if bool_decide ("."%char ∈ filename) then
    match rsplit1 "." filename !! 1 with
    | Some ext => Some (bool_decide (lower ext ∈ ALLOWED_EXTENSIONS))
    | None => None
    end
  else Some false.

(** The suffix [f".{filename.split('.')[-1]}"] that [upload_file] gives to
    the temporary file handed to the analyzer. *)
Definition upload_suffix (filename : pystr) : pystr :=
  lit "." ++ last_part (str_split "." filename).

(** The path that [upload_file] hands to the analyzer:
    [filename = secure_filename(file.filename)] first, then
    [NamedTemporaryFile(suffix=...)], which puts the suffix after a
    directory and a random stem of its choosing.  [secure_filename]
    belongs to werkzeug and is a parameter. *)
Definition upload_tmp_path (secure_filename : pystr → pystr)
    (tmp_prefix raw_name : pystr) : pystr :=
  let filename := secure_filename raw_name in
  tmp_prefix ++ upload_suffix filename.

(** [fnmatch] on a pattern made of literal characters and ["*"], as
    [glob.glob] applies it to the names of the working directory. *)
Fixpoint glob_match (pattern name : pystr) : bool :=
  match pattern with
  | [] => match name with [] => true | _ => false end
  | p :: pattern' =>
      if Ascii.eqb p "*" then
        (fix star (n : pystr) : bool :=
           if glob_match pattern' n then true
           else match n with
                | [] => false
                | _ :: n' => star n'
                end) name
      else
        match name with
        | [] => false
        | x :: name' => if Ascii.eqb p x then glob_match pattern' name' else false
        end
  end.

(** The pattern of [get_latest_analysis]. *)
Definition ANALYSIS_PATTERN : pystr := lit "consolidated_analysis_*.txt".

(** ** Further notions used in the properties *)

(** No ["<"] of [s] opens a tag: the property that [re.sub] of the tag
    pattern establishes. *)
Definition tag_free (s : pystr) : Prop :=
  ∀ a b, s = a ++ "<"%char :: b → Re.tag_follows b = false.

(** Two adjacent whitespace characters somewhere in [s]. *)
Fixpoint has_space_pair (s : pystr) : bool :=
  match s with
  | x :: (y :: _) as rest => isspace x && isspace y || has_space_pair rest
  | _ => false
  end.

(** A decimal digit. *)
Definition is_digit (c : ascii) : bool :=
  ((48 <=? N_of_ascii c) && (N_of_ascii c <=? 57))%N.

(** ** Sample documents *)
Module Sample.

Definition soup_get_text (content : pystr) : outcome := Returned content.

(** What [secure_filename] does to a name made of letters, digits,
    dots and single inner spaces: each space becomes an underscore. *)
Definition secure_filename (name : pystr) : pystr :=
  (λ c, if Ascii.eqb c " " then "_"%char else c) <$> name.

(** The second call of a run times out, the others answer. *)
Definition converse (n : nat) (req : request) : outcome :=
  if bool_decide (n = 1) then Raised (lit "Read timeout")
  else Returned (lit "analysis " ++ str_of_nat n).

Definition sentence (i : nat) : pystr := lit "Sentence number " ++ str_of_nat i ++ lit ".".

(** A plain-text document of 1000 sentences. *)
Definition document : pystr := join (lit " ") (sentence <$> seq 0 1000).

(** A small XML document of two sentences. *)
Definition small_xml : pystr :=
  lit "<?xml version='1.0'?><bill><p>The levy applies to all carriers. It starts in March!</p></bill>".

(** An XML document of 2700 sentences, 51299 characters once stripped. *)
Definition large_xml : pystr :=
  lit "<bill>" ++ mjoin (replicate 2700 (lit "Lorem ipsum dolor. ")) ++ lit "</bill>".

(** A plain-text document of one sentence. *)
Definition note : pystr := lit "The levy applies to all carriers.".

(** A service that always times out. *)
Definition timeout (n : nat) (req : request) : outcome := Raised (lit "Read timeout").

(** A fresh world with one readable file, where every path can be written. *)
Definition world_with (path content : pystr) : world :=
  World {[ path := Text content ]} (λ _, None) [] [].

End Sample.

(** * Properties *)

(** A decidable closed proposition, settled by evaluating its decision. *)
Ltac by_computation := apply (bool_decide_unpack _); vm_compute; exact I.

(** Short fragments ("Hi!", "tiny.") are dropped, the others trimmed. *)
Example extract_two :
  extract_sentences_from_text (lit "First sentence here.  Hi! Is this the second one? tiny. ")
  = [lit "First sentence here."; lit "Is this the second one?"].
Proof. vm_compute. reflexivity. Qed.

(** ** Partitioning *)
Section Partition.

Lemma range_cons start stop step :
  start < stop → 0 < step →
  range start stop step = start :: range (start + step) stop step.
Proof.
  intros H1 H2. rewrite range_equation_1.
  destruct (decide (start < stop ∧ 0 < step)) as [a|n]; [|lia].
  by rewrite range_clause_1_equation_1.
Qed.

Lemma range_nil start stop step : stop ≤ start → range start stop step = [].
Proof.
  intros H. rewrite range_equation_1.
  destruct (decide (start < stop ∧ 0 < step)) as [a|n]; [lia|].
  by rewrite range_clause_1_equation_2.
Qed.

Lemma range_lookup step k : 0 < step → ∀ start stop,
  range start stop step !! k
  = if decide (start + k * step < stop) then Some (start + k * step) else None.
Proof.
  intros Hstep. induction k as [|k IH]; intros start stop.
  - destruct (decide (start < stop)).
    + rewrite range_cons by lia. simpl. case_decide; [f_equal; lia | lia].
    + rewrite range_nil by lia. simpl. case_decide; [lia | done].
  - destruct (decide (start < stop)).
    + rewrite range_cons by lia. simpl. rewrite IH.
      repeat case_decide; try lia; [f_equal; lia | done].
    + rewrite range_nil by lia. simpl. case_decide; [nia | done].
Qed.

Lemma range_shift step d : 0 < step → ∀ n start stop,
  stop - start ≤ n →
  range (start + d) (stop + d) step = (λ i, i + d) <$> range start stop step.
Proof.
  intros Hstep. induction n as [|n IH]; intros start stop Hn.
  - rewrite !range_nil by lia. done.
  - destruct (decide (start < stop)).
    + rewrite (range_cons start) by lia. rewrite (range_cons (start + d)) by lia.
      simpl. f_equal. replace (start + d + step) with (start + step + d) by lia.
      apply IH. lia.
    + rewrite !range_nil by lia. done.
Qed.

Lemma make_chunks_nil chunk_size : make_chunks [] chunk_size = [].
Proof. unfold make_chunks. simpl. by rewrite range_nil. Qed.

Lemma make_chunks_cons sentences chunk_size :
  0 < chunk_size → sentences ≠ [] →
  make_chunks sentences chunk_size
  = take chunk_size sentences :: make_chunks (drop chunk_size sentences) chunk_size.
Proof.
  intros Hc Hne. unfold make_chunks.
  assert (0 < length sentences) by (destruct sentences; [done | simpl; lia]).
  rewrite range_cons by lia. rewrite fmap_cons. f_equal.
  - unfold slice. rewrite drop_0. f_equal. lia.
  - rewrite length_drop. simpl.
    destruct (decide (chunk_size < length sentences)).
    + replace (length sentences) with ((length sentences - chunk_size) + chunk_size) at 1 by lia.
      rewrite (range_shift chunk_size chunk_size Hc (length sentences) 0) by lia.
      rewrite <- list_fmap_compose. apply list_fmap_ext. intros ? i _. simpl.
      unfold slice. rewrite drop_drop. f_equal; [lia | f_equal; lia].
    + rewrite !range_nil by lia. done.
Qed.

Lemma make_chunks_concat chunk_size : 0 < chunk_size → ∀ n sentences,
  length sentences ≤ n → concat (make_chunks sentences chunk_size) = sentences.
Proof.
  intros Hc. induction n as [|n IH]; intros sentences Hn.
  - destruct sentences; [|simpl in Hn; lia]. by rewrite make_chunks_nil.
  - destruct (decide (sentences = [])) as [->|Hne]; [by rewrite make_chunks_nil|].
    rewrite make_chunks_cons by done. simpl. rewrite IH.
    + apply take_drop.
    + rewrite length_drop. destruct sentences; [done | simpl in *; lia].
Qed.

Lemma make_chunks_lookup sentences chunk_size k :
  0 < chunk_size →
  make_chunks sentences chunk_size !! k
  = if decide (k * chunk_size < length sentences)
    then Some (slice sentences (k * chunk_size) (k * chunk_size + chunk_size))
    else None.
Proof.
  intros Hc. unfold make_chunks. rewrite list_lookup_fmap, range_lookup by done.
  simpl. by case_decide.
Qed.

Lemma make_chunks_length_bounds sentences chunk_size :
  0 < chunk_size →
  length sentences ≤ length (make_chunks sentences chunk_size) * chunk_size
  ∧ length (make_chunks sentences chunk_size) * chunk_size < length sentences + chunk_size.
Proof.
  intros Hc. set (q := length (make_chunks sentences chunk_size)). split.
  - destruct (decide (length sentences ≤ q * chunk_size)) as [|Hlt]; [done|].
    assert (is_Some (make_chunks sentences chunk_size !! q)) as Hs.
    { rewrite make_chunks_lookup by done. case_decide; [eauto | lia]. }
    apply lookup_lt_is_Some in Hs. unfold q in *. lia.
  - destruct q as [|q'] eqn:Hq; [lia|].
    assert (is_Some (make_chunks sentences chunk_size !! q')) as Hs.
    { apply lookup_lt_is_Some. unfold q in Hq. lia. }
    rewrite make_chunks_lookup in Hs by done.
    case_decide; [lia | by destruct Hs].
Qed.

Lemma make_chunks_length sentences chunk_size :
  0 < chunk_size →
  length (make_chunks sentences chunk_size)
  = (length sentences + (chunk_size - 1)) / chunk_size.
Proof.
  intros Hc. destruct (make_chunks_length_bounds sentences chunk_size Hc) as [H1 H2].
  apply (Nat.div_unique _ _ _
    (length sentences + (chunk_size - 1)
     - length (make_chunks sentences chunk_size) * chunk_size)); lia.
Qed.

End Partition.

(** C2. With the chunk size 400 of [main], a sequence of N units is cut
    into exactly ceil(N/400) chunks (that is (N+399)/400, the one count q
    with N <= 400q < N+400); no chunk is empty; chunk k is the contiguous
    slice of at most 400 units that starts at unit 400k, so chunks neither
    overlap nor leave gaps nor reorder; every chunk but the last has 400
    units; and the chunks concatenated give back the sequence. *)
Theorem make_chunks_partition (sentences : list pystr) :
  let chunks := make_chunks sentences CHUNK_SIZE in
  length chunks = (length sentences + 399) / 400
  ∧ (length sentences ≤ 400 * length chunks < length sentences + 400)
  ∧ Forall (λ chunk, chunk ≠ []) chunks
  ∧ (∀ k chunk, chunks !! k = Some chunk →
       chunk = take 400 (drop (400 * k) sentences)
       ∧ 0 < length chunk ≤ 400
       ∧ (S k < length chunks → length chunk = 400))
  ∧ concat chunks = sentences.
Proof.
  intros chunks. subst chunks. unfold CHUNK_SIZE.
  assert (0 < 400) as Hc by lia.
  pose proof (make_chunks_length_bounds sentences 400 Hc) as [Hb1 Hb2].
  assert (∀ k chunk, make_chunks sentences 400 !! k = Some chunk →
            chunk = take 400 (drop (400 * k) sentences)
            ∧ 0 < length chunk ≤ 400
            ∧ (S k < length (make_chunks sentences 400) → length chunk = 400)) as Hk.
  { intros k chunk Hlk. rewrite make_chunks_lookup in Hlk by done.
    case_decide as Hlt; [|done]. injection Hlk as <-. unfold slice.
    replace (k * 400 + 400 - k * 400) with 400 by lia.
    replace (k * 400) with (400 * k) by lia.
    split; [done|]. rewrite length_take, length_drop. split; [lia|].
    intros HS. lia. }
  split; [by rewrite make_chunks_length|].
  split; [lia|]. split; [|split; [done|]].
  - apply Forall_lookup_2. intros k chunk Hlk Hnil.
    destruct (Hk k chunk Hlk) as (_ & Hlen & _). subst chunk. simpl in Hlen. lia.
  - by apply (make_chunks_concat 400 Hc (length sentences)).
Qed.

(** The end-to-end example of the partition: 1000 units give 400/400/200. *)
Example make_chunks_1000 :
  length <$> make_chunks (replicate 1000 (lit "unit")) CHUNK_SIZE = [400; 400; 200].
Proof. vm_compute. reflexivity. Qed.

(** ** Sentence segmentation *)
Section Segmentation.

Lemma lspaces_lstrip s : lspaces s ++ lstrip s = s.
Proof. induction s as [|c s IH]; simpl; [done|]. destruct (isspace c); simpl; congruence. Qed.

Lemma lspaces_Forall s : Forall (λ c, isspace c = true) (lspaces s).
Proof.
  induction s as [|c s IH]; simpl; [constructor|].
  destruct (isspace c) eqn:E; by constructor.
Qed.

Lemma lstrip_idemp s : lstrip (lstrip s) = lstrip s.
Proof.
  induction s as [|c s IH]; simpl; [done|].
  destruct (isspace c) eqn:E; [done|]. simpl. by rewrite E.
Qed.

Lemma lstrip_length s : length (lstrip s) ≤ length s.
Proof. induction s as [|c s IH]; simpl; [done|]. destruct (isspace c); simpl; lia. Qed.

Lemma split_go_gap s : Re.split_go true [] s = Re.split_go false [] (lstrip s).
Proof.
  induction s as [|c s IH]; simpl; [done|].
  destruct (isspace c) eqn:E; [done|]. simpl. by rewrite E.
Qed.

Lemma has_boundary_snoc cur c :
  has_boundary (cur ++ [c]) = has_boundary cur || Re.lookbehind cur && isspace c.
Proof.
  induction cur as [|a cur IH]; [done|].
  destruct cur as [|b cur].
  - simpl. unfold Re.lookbehind. simpl. by rewrite !orb_false_r.
  - change ((a :: b :: cur) ++ [c]) with (a :: (b :: cur) ++ [c]).
    change (has_boundary (a :: (b :: cur) ++ [c]))
      with (Re.is_terminator a && isspace b || has_boundary ((b :: cur) ++ [c])).
    rewrite IH.
    change (has_boundary (a :: b :: cur))
      with (Re.is_terminator a && isspace b || has_boundary (b :: cur)).
    replace (Re.lookbehind (a :: b :: cur)) with (Re.lookbehind (b :: cur)); [|done].
    by rewrite orb_assoc.
Qed.

Lemma split_go_segments n : ∀ s cur,
  length s ≤ n → has_boundary cur = false →
  segments (cur ++ s) (Re.split_go false cur s).
Proof.
  induction n as [|n IH]; intros s cur Hn Hcur.
  - destruct s; [|simpl in Hn; lia]. rewrite app_nil_r. by constructor.
  - destruct s as [|c s]; [rewrite app_nil_r; by constructor|].
    simpl in Hn. simpl.
    destruct (isspace c) eqn:Ec; [destruct (Re.lookbehind cur) eqn:El|].
    + rewrite split_go_gap.
      rewrite <- (lspaces_lstrip s) at 1.
      change (cur ++ c :: lspaces s ++ lstrip s)
        with (cur ++ (c :: lspaces s) ++ lstrip s).
      apply segments_gap; try done.
      * constructor; [done | apply lspaces_Forall].
      * apply lstrip_idemp.
      * apply (IH (lstrip s) []); [|done].
        pose proof (lstrip_length s). lia.
    + rewrite (cons_middle c cur s), app_assoc. apply IH; [lia|].
      by rewrite has_boundary_snoc, Hcur, El.
    + rewrite (cons_middle c cur s), app_assoc. apply IH; [lia|].
      by rewrite has_boundary_snoc, Hcur, Ec, andb_false_r.
Qed.

Lemma split_sentences_segments text : segments text (Re.split_sentences text).
Proof. apply (split_go_segments (length text) text []); done. Qed.

Lemma has_boundary_junction p c rest :
  Re.lookbehind p = true → isspace c = true → has_boundary (p ++ c :: rest) = true.
Proof.
  intros Hp Hc. induction p as [|a p IH]; [done|].
  destruct p as [|b p].
  - unfold Re.lookbehind in Hp. simpl in *. by rewrite Hp, Hc.
  - change (has_boundary ((a :: b :: p) ++ c :: rest))
      with (Re.is_terminator a && isspace b || has_boundary ((b :: p) ++ c :: rest)).
    rewrite IH; [by rewrite orb_true_r | done].
Qed.

Lemma lspaces_app gap rest :
  Forall (λ c, isspace c = true) gap → lstrip rest = rest →
  lspaces (gap ++ rest) = gap ∧ lstrip (gap ++ rest) = rest.
Proof.
  intros Hgap Hrest. induction Hgap as [|c gap Hc _ IH]; simpl.
  - split; [|done]. destruct rest as [|c rest]; [done|]. simpl in *.
    destruct (isspace c); [|done].
    exfalso. pose proof (lstrip_length rest) as Hlen. rewrite Hrest in Hlen.
    simpl in Hlen. lia.
  - rewrite Hc. destruct IH as [-> ->]. done.
Qed.

Lemma segments_head p gap rest p' gap' rest' :
  has_boundary p' = false → Re.lookbehind p = true →
  gap ≠ [] → Forall (λ c, isspace c = true) gap →
  p ++ gap ++ rest = p' ++ gap' ++ rest' →
  ∃ k, p = p' ++ k.
Proof.
  intros Hp' Hlook Hne Hgap E.
  apply app_eq_inv in E as [(k & -> & _)|(k & -> & E)]; [by exists k|].
  destruct k as [|c k]; [exists []; by rewrite !app_nil_r|]. exfalso.
  destruct gap as [|c' gap]; [done|]. simpl in E. injection E as -> _.
  apply Forall_cons in Hgap as [Hc _].
  by rewrite has_boundary_junction in Hp'.
Qed.

(** The sentence boundaries determine the pieces. *)
Lemma segments_unique text pieces :
  segments text pieces → ∀ pieces', segments text pieces' → pieces = pieces'.
Proof.
  induction 1 as [p Hp|p gap rest pieces Hp Hlook Hne Hgap Hrest _ IH];
    intros pieces' H'.
  - inversion H' as [|p' gap' rest' ps' _ Hlook' Hne' Hgap' _ _ E]; [done|].
    exfalso. subst. destruct gap' as [|c gap']; [done|].
    apply Forall_cons in Hgap' as [Hc _].
    cbn [app] in Hp. by rewrite has_boundary_junction in Hp.
  - inversion H' as [q Hq E|p' gap' rest' ps' Hp' Hlook' Hne' Hgap' Hrest' Hsub E].
    + exfalso. subst. destruct gap as [|c gap]; [done|].
      apply Forall_cons in Hgap as [Hc _].
      cbn [app] in Hq. by rewrite has_boundary_junction in Hq.
    + subst.
      destruct (segments_head p gap rest p' gap' rest' Hp' Hlook Hne Hgap (eq_sym E))
        as [k Ek].
      destruct (segments_head p' gap' rest' p gap rest Hp Hlook' Hne' Hgap' E)
        as [k' Ek'].
      assert (p' = p) as ->.
      { apply (f_equal length) in Ek as Hl. apply (f_equal length) in Ek' as Hl'.
        rewrite length_app in Hl, Hl'.
        destruct k as [|? ?]; [by rewrite app_nil_r in Ek|]. simpl in Hl. lia. }
      apply app_inv_head in E.
      destruct (lspaces_app gap rest Hgap Hrest) as [_ E1].
      destruct (lspaces_app gap' rest' Hgap' Hrest') as [_ E2].
      rewrite E, E1 in E2. subst rest'. f_equal. by apply IH.
Qed.

Lemma extract_sentences_filter text :
  extract_sentences_from_text text
  = strip <$> filter (λ s, 10 < length (strip s)) (Re.split_sentences text).
Proof.
  unfold extract_sentences_from_text. simpl.
  induction (Re.split_sentences text) as [|s l IH]; [done|].
  rewrite filter_cons. cbn [mbind list_bind]. rewrite IH.
  destruct (decide (10 < length (strip s))) as [Hlt|Hge].
  - assert (strip s ≠ []) by (intros E; rewrite E in Hlt; simpl in Hlt; lia).
    rewrite bool_decide_eq_false_2 by done.
    apply Nat.ltb_lt in Hlt. rewrite Hlt. done.
  - apply Nat.ltb_nlt in Hge. rewrite Hge, andb_false_r. done.
Qed.

End Segmentation.

Lemma world_with_lookup path content :
  fs (Sample.world_with path content) !! path = Some (Text content).
Proof. apply lookup_singleton_eq. Qed.

(** C5 (amended). The pieces that [extract_sentences_from_text] works on
    are the fragments of the text between its sentence boundaries (a
    ['.'], ['!'] or ['?'] followed by whitespace, the whole run of
    whitespace being the separator), and the result consists, in the
    original order, of exactly those fragments, trimmed, whose trimmed
    length is at least 11 characters: a fragment of 10 characters or
    fewer is discarded. *)
Theorem extract_sentences_spec (text : pystr) :
  (∀ pieces, segments text pieces ↔ pieces = Re.split_sentences text)
  ∧ extract_sentences_from_text text
    = strip <$> filter (λ s, 11 ≤ length (strip s)) (Re.split_sentences text).
Proof.
  split.
  - intros pieces. split.
    + intros H. apply (segments_unique text pieces H). apply split_sentences_segments.
    + intros ->. apply split_sentences_segments.
  - rewrite extract_sentences_filter. f_equal.
Qed.

(** C5 as stated fails: a fragment of exactly 10 characters is not kept. *)
Lemma extract_drops_ten_characters :
  ¬ (∀ text, extract_sentences_from_text text
             = strip <$> filter (λ s, 10 ≤ length (strip s)) (Re.split_sentences text)).
Proof.
  intros H. specialize (H (lit "Ten chars.")). vm_compute in H. discriminate H.
Qed.

(** ** The XML loader *)
Section Xml.

Lemma xml_phrase_prefix i s :
  xml_phrase i s = (lit "XML Phrase " ++ str_of_nat (i + 1) ++ lit ": ") ++ s.
Proof. unfold xml_phrase. by rewrite <- !app_assoc. Qed.

Lemma xml_phrase_ne i s : xml_phrase i s ≠ s.
Proof.
  intros E. apply (f_equal length) in E. unfold xml_phrase in E.
  rewrite !length_app in E. simpl in E. lia.
Qed.

Lemma xml_number_sentences_over raw :
  XML_SENTENCE_LIMIT < length raw →
  xml_number_sentences raw
  = imap xml_phrase (take XML_SENTENCE_LIMIT raw) ++ [SENTENCES_TRUNCATED].
Proof.
  intros H. unfold xml_number_sentences.
  apply Nat.ltb_lt in H. by rewrite H.
Qed.

Lemma xml_number_sentences_under raw :
  length raw ≤ XML_SENTENCE_LIMIT →
  xml_number_sentences raw = imap xml_phrase raw.
Proof.
  intros H. unfold xml_number_sentences.
  assert ((XML_SENTENCE_LIMIT <? length raw) = false) as -> by (apply Nat.ltb_ge; lia).
  done.
Qed.

Lemma xml_number_sentences_lookup raw k u :
  xml_number_sentences raw !! k = Some u →
  (k < XML_SENTENCE_LIMIT ∧ ∃ s, raw !! k = Some s ∧ u = xml_phrase k s)
  ∨ (k = XML_SENTENCE_LIMIT ∧ XML_SENTENCE_LIMIT < length raw ∧ u = SENTENCES_TRUNCATED).
Proof.
  destruct (decide (XML_SENTENCE_LIMIT < length raw)) as [Hlt|Hge].
  - rewrite xml_number_sentences_over by done.
    assert (length (imap xml_phrase (take XML_SENTENCE_LIMIT raw)) = XML_SENTENCE_LIMIT) as Hlen.
    { rewrite length_imap, length_take. lia. }
    destruct (decide (k < XML_SENTENCE_LIMIT)) as [Hk|Hk].
    + rewrite lookup_app_l by lia. rewrite list_lookup_imap_Some.
      intros (s & Hs & ->). rewrite lookup_take_lt in Hs by done. left. eauto.
    + rewrite lookup_app_r by lia. rewrite Hlen.
      destruct (k - XML_SENTENCE_LIMIT) as [|j] eqn:Ej; [|done].
      simpl. intros [= <-]. right. repeat split; [lia | done].
  - rewrite xml_number_sentences_under by lia.
    rewrite list_lookup_imap_Some. intros (s & Hs & ->). left.
    split; [|eauto]. apply lookup_lt_Some in Hs. lia.
Qed.

Lemma read_xml_sentences_text w path content :
  fs w !! path = Some (Text content) →
  (read_xml_sentences path w).1
  = xml_number_sentences
      (extract_sentences_from_text (xml_limit_text (xml_plain_text content))).
Proof. intros H. unfold read_xml_sentences, read_text, mbind, M_bind. by rewrite H. Qed.

End Xml.

(** C6. For an XML file, when the stripped text is longer than 50,000
    characters the loader segments its first 50,000 characters followed by
    the marker "... [truncated for performance]"; and when segmentation
    gives more than 200 sentences the loader returns 201 units: the first
    200 sentences, numbered, then the marker unit
    "XML Phrase 201: [Additional content truncated for performance]" as
    the last one. *)
Theorem xml_cost_bounds (w : world) (path content : pystr) :
  fs w !! path = Some (Text content) →
  let text := xml_plain_text content in
  let raw := extract_sentences_from_text (xml_limit_text text) in
  let units := (read_xml_sentences path w).1 in
  (XML_TEXT_LIMIT < length text →
     xml_limit_text text = take XML_TEXT_LIMIT text ++ TEXT_TRUNCATED
     ∧ length (xml_limit_text text) = XML_TEXT_LIMIT + 31
     ∧ units = xml_number_sentences
                 (extract_sentences_from_text (take XML_TEXT_LIMIT text ++ TEXT_TRUNCATED)))
  ∧ (200 < length raw →
     units = imap xml_phrase (take 200 raw) ++ [SENTENCES_TRUNCATED]
     ∧ length units = 201
     ∧ (∀ k s, k < 200 → raw !! k = Some s → units !! k = Some (xml_phrase k s))
     ∧ last units = Some SENTENCES_TRUNCATED).
Proof.
  intros Hfile text raw units. subst units.
  rewrite (read_xml_sentences_text w path content Hfile). fold text. fold raw.
  split.
  - intros Hlong.
    assert (xml_limit_text text = take XML_TEXT_LIMIT text ++ TEXT_TRUNCATED) as E.
    { unfold xml_limit_text. apply Nat.ltb_lt in Hlong. by rewrite Hlong. }
    split; [done|]. split.
    + rewrite E, length_app, length_take_le by lia. done.
    + subst raw. by rewrite E.
  - intros Hmany.
    assert (xml_number_sentences raw
            = imap xml_phrase (take 200 raw) ++ [SENTENCES_TRUNCATED]) as E
      by (by apply xml_number_sentences_over).
    rewrite E. split; [done|]. split; [|split].
    + rewrite length_app, length_imap, length_take_le by lia. done.
    + intros k s Hk Hs. rewrite lookup_app_l by (rewrite length_imap, length_take; lia).
      rewrite list_lookup_imap, lookup_take_lt, Hs by done. done.
    + apply last_snoc.
Qed.

(** C10. Every unit that the loader returns for an XML file starts with
    "XML Phrase <n>: ", n being its 1-based position; a unit made from
    an extracted sentence is that sentence behind its prefix, and so never
    equals the sentence; the plain-text and the HTML loader return the
    extracted sentences as they are. *)
Theorem xml_units_are_numbered (soup_get_text : pystr → outcome)
    (w : world) (path content : pystr) :
  fs w !! path = Some (Text content) →
  let raw := extract_sentences_from_text (xml_limit_text (xml_plain_text content)) in
  let units := (read_xml_sentences path w).1 in
  (∀ k u, units !! k = Some u →
     ∃ body, u = lit "XML Phrase " ++ str_of_nat (k + 1) ++ lit ": " ++ body)
  ∧ (∀ k s, k < 200 → raw !! k = Some s →
       units !! k = Some (lit "XML Phrase " ++ str_of_nat (k + 1) ++ lit ": " ++ s)
       ∧ lit "XML Phrase " ++ str_of_nat (k + 1) ++ lit ": " ++ s ≠ s)
  ∧ (read_txt_sentences path w).1 = extract_sentences_from_text content
  ∧ (∀ text, soup_get_text content = Returned text →
       (read_html_sentences soup_get_text path w).1 = extract_sentences_from_text text).
Proof.
  intros Hfile raw units. subst units.
  rewrite (read_xml_sentences_text w path content Hfile). fold raw.
  split; [|split; [|split]].
  - intros k u Hu. apply xml_number_sentences_lookup in Hu as [(_ & s & _ & ->)|(-> & _ & ->)].
    + by exists s.
    + by exists (lit "[Additional content truncated for performance]").
  - intros k s Hk Hs. split; [|apply (xml_phrase_ne k s)].
    destruct (decide (XML_SENTENCE_LIMIT < length raw)).
    + rewrite xml_number_sentences_over by done.
      rewrite lookup_app_l by (rewrite length_imap, length_take; unfold XML_SENTENCE_LIMIT in *; lia).
      rewrite list_lookup_imap, lookup_take_lt, Hs by done. done.
    + rewrite xml_number_sentences_under by lia.
      rewrite list_lookup_imap, Hs. done.
  - unfold read_txt_sentences, read_text, mbind, M_bind. by rewrite Hfile.
  - intros text Hsoup. unfold read_html_sentences, read_text, mbind, M_bind.
    by rewrite Hfile, Hsoup.
Qed.

(** Both limits at work on the large sample: 51299 characters, 2700
    sentences. *)
Lemma xml_cost_bounds_witness :
  (xml_limit_text (xml_plain_text Sample.large_xml)
   = take XML_TEXT_LIMIT (xml_plain_text Sample.large_xml) ++ TEXT_TRUNCATED
   ∧ length (xml_limit_text (xml_plain_text Sample.large_xml)) = XML_TEXT_LIMIT + 31
   ∧ (read_xml_sentences (lit "large.xml") (Sample.world_with (lit "large.xml") Sample.large_xml)).1
     = xml_number_sentences
         (extract_sentences_from_text
            (take XML_TEXT_LIMIT (xml_plain_text Sample.large_xml) ++ TEXT_TRUNCATED)))
  ∧ ((read_xml_sentences (lit "large.xml") (Sample.world_with (lit "large.xml") Sample.large_xml)).1
     = imap xml_phrase
         (take 200 (extract_sentences_from_text
                      (xml_limit_text (xml_plain_text Sample.large_xml))))
       ++ [SENTENCES_TRUNCATED]
     ∧ length (read_xml_sentences (lit "large.xml") (Sample.world_with (lit "large.xml") Sample.large_xml)).1 = 201
     ∧ (∀ k s, k < 200 →
          extract_sentences_from_text (xml_limit_text (xml_plain_text Sample.large_xml)) !! k
          = Some s →
          (read_xml_sentences (lit "large.xml") (Sample.world_with (lit "large.xml") Sample.large_xml)).1 !! k = Some (xml_phrase k s))
     ∧ last (read_xml_sentences (lit "large.xml") (Sample.world_with (lit "large.xml") Sample.large_xml)).1 = Some SENTENCES_TRUNCATED).
Proof.
  pose proof (xml_cost_bounds (Sample.world_with (lit "large.xml") Sample.large_xml)
                (lit "large.xml") Sample.large_xml) as H.
  cbv zeta in H. destruct H as [H1 H2]; [apply world_with_lookup|].
  split; [apply H1 | apply H2]; apply Nat.ltb_lt; vm_compute; reflexivity.
Defined.

(** The numbering on the small sample. *)
Lemma xml_units_are_numbered_witness :
  (∀ k u, (read_xml_sentences (lit "small.xml") (Sample.world_with (lit "small.xml") Sample.small_xml)).1 !! k = Some u →
     ∃ body, u = lit "XML Phrase " ++ str_of_nat (k + 1) ++ lit ": " ++ body)
  ∧ (∀ k s, k < 200 →
       extract_sentences_from_text (xml_limit_text (xml_plain_text Sample.small_xml)) !! k
       = Some s →
       (read_xml_sentences (lit "small.xml") (Sample.world_with (lit "small.xml") Sample.small_xml)).1 !! k
       = Some (lit "XML Phrase " ++ str_of_nat (k + 1) ++ lit ": " ++ s)
       ∧ lit "XML Phrase " ++ str_of_nat (k + 1) ++ lit ": " ++ s ≠ s)
  ∧ (read_txt_sentences (lit "small.xml") (Sample.world_with (lit "small.xml") Sample.small_xml)).1
    = extract_sentences_from_text Sample.small_xml
  ∧ (∀ text, Sample.soup_get_text Sample.small_xml = Returned text →
       (read_html_sentences Sample.soup_get_text (lit "small.xml") (Sample.world_with (lit "small.xml") Sample.small_xml)).1
       = extract_sentences_from_text text).
Proof.
  apply (xml_units_are_numbered Sample.soup_get_text
           (Sample.world_with (lit "small.xml") Sample.small_xml)
           (lit "small.xml") Sample.small_xml).
  apply world_with_lookup.
Defined.

(** The small XML sample, loaded. *)
Example read_small_xml :
  (read_xml_sentences (lit "small.xml") (Sample.world_with (lit "small.xml") Sample.small_xml)).1
  = [lit "XML Phrase 1: The levy applies to all carriers.";
     lit "XML Phrase 2: It starts in March!"].
Proof. vm_compute. reflexivity. Qed.

(** ** The format tag *)
Section FormatTag.

Lemma split_on_no_sep sep s : ∀ cur, sep ∉ s → split_on sep cur s = [cur ++ s].
Proof.
  induction s as [|c s IH]; intros cur Hs; simpl; [by rewrite app_nil_r|].
  apply not_elem_of_cons in Hs as [Hne Hs].
  destruct (Ascii.eqb_spec c sep) as [->|_]; [done|].
  rewrite IH by done. by rewrite <- app_assoc.
Qed.

Lemma split_on_last sep pre suf : ∀ cur,
  sep ∉ suf → last (split_on sep cur (pre ++ sep :: suf)) = Some suf.
Proof.
  induction pre as [|c pre IH]; intros cur Hs; simpl.
  - rewrite Ascii.eqb_refl. by rewrite split_on_no_sep.
  - destruct (Ascii.eqb c sep).
    + rewrite last_cons, IH by done. done.
    + by apply IH.
Qed.

Lemma lower_char_dot c : lower_char c = "."%char ↔ c = "."%char.
Proof.
  split; [|by intros ->].
  destruct c as [[] [] [] [] [] [] [] []]; vm_compute; congruence.
Qed.

Lemma lower_no_dot s : "."%char ∉ s → "."%char ∉ lower s.
Proof.
  intros Hs [c [Hc Hin]]%list_elem_of_fmap.
  symmetry in Hc. apply lower_char_dot in Hc as ->. done.
Qed.

Lemma file_ext_after_last_dot pre suf :
  "."%char ∉ suf → file_ext (pre ++ "."%char :: suf) = lower suf.
Proof.
  intros Hs. unfold file_ext, last_part, str_split, lower.
  rewrite fmap_app, fmap_cons.
  change (lower_char ".") with "."%char.
  rewrite split_on_last; [done|]. by apply lower_no_dot.
Qed.

Lemma file_ext_dotless file_path :
  "."%char ∉ file_path → file_ext file_path = lower file_path.
Proof.
  intros Hs. unfold file_ext, last_part, str_split.
  rewrite split_on_no_sep by (by apply lower_no_dot). done.
Qed.

Lemma read_file_sentences_unsupported soup_get_text file_path w :
  file_ext file_path ∉ [lit "xml"; lit "html"; lit "txt"] →
  read_file_sentences soup_get_text file_path w
  = ([], World (fs w) (write_error w)
           (stdout w ++ [MsgUnsupported (file_ext file_path)]) (calls w)).
Proof.
  intros Hext. unfold read_file_sentences.
  rewrite !bool_decide_eq_false_2; [done|..]; intros E; apply Hext; rewrite E;
    repeat constructor.
Qed.

End FormatTag.

(** C9 (amended). The format tag is the part of the lowercased path
    after its last ['.'], so "DOC.XML" is read as XML; a path without any
    ['.'] has the whole lowercased path as its tag, so a path that is
    exactly "xml", "html" or "txt" in any letter case is read as that
    format, and every other dotless path yields the empty sequence (with
    the unsupported-type message). *)
Theorem file_ext_dispatch (soup_get_text : pystr → outcome) (file_path : pystr) :
  (∀ pre suf, file_path = pre ++ "."%char :: suf → "."%char ∉ suf →
     file_ext file_path = lower suf)
  ∧ file_ext (lit "DOC.XML") = lit "xml"
  ∧ read_file_sentences soup_get_text (lit "DOC.XML") = read_xml_sentences (lit "DOC.XML")
  ∧ ("."%char ∉ file_path →
       file_ext file_path = lower file_path
       ∧ (lower file_path = lit "xml" →
            read_file_sentences soup_get_text file_path = read_xml_sentences file_path)
       ∧ (lower file_path = lit "html" →
            read_file_sentences soup_get_text file_path
            = read_html_sentences soup_get_text file_path)
       ∧ (lower file_path = lit "txt" →
            read_file_sentences soup_get_text file_path = read_txt_sentences file_path)
       ∧ (lower file_path ∉ [lit "xml"; lit "html"; lit "txt"] →
            ∀ w, (read_file_sentences soup_get_text file_path w).1 = []
                 ∧ stdout (read_file_sentences soup_get_text file_path w).2
                   = stdout w ++ [MsgUnsupported (lower file_path)])).
Proof.
  split; [|split; [|split]].
  - intros pre suf -> Hs. by apply file_ext_after_last_dot.
  - vm_compute. reflexivity.
  - unfold read_file_sentences.
    replace (file_ext (lit "DOC.XML")) with (lit "xml") by (vm_compute; reflexivity).
    done.
  - intros Hdot. pose proof (file_ext_dotless file_path Hdot) as Hext.
    split; [done|]. unfold read_file_sentences at 1 2 3. rewrite Hext.
    split; [|split; [|split]].
    + intros ->. done.
    + intros ->. done.
    + intros ->. done.
    + intros Hother w. rewrite <- Hext in Hother.
      rewrite (read_file_sentences_unsupported soup_get_text file_path w Hother).
      rewrite Hext. done.
Qed.

(** Dotless paths: "TXT" is read as plain text, "notes" is not read. *)
Lemma file_ext_dispatch_witness :
  file_ext (lit "TXT") = lower (lit "TXT")
  ∧ (read_file_sentences Sample.soup_get_text (lit "TXT")
        (Sample.world_with (lit "TXT") Sample.small_xml)).1
    = extract_sentences_from_text Sample.small_xml
  ∧ (read_file_sentences Sample.soup_get_text (lit "notes")
        (Sample.world_with (lit "notes") Sample.small_xml)).1 = [].
Proof.
  destruct (file_ext_dispatch Sample.soup_get_text (lit "TXT")) as (_ & _ & _ & H1).
  destruct (file_ext_dispatch Sample.soup_get_text (lit "notes")) as (_ & _ & _ & H2).
  destruct H1 as (E1 & _ & _ & Htxt & _); [by_computation|].
  destruct H2 as (_ & _ & _ & _ & Hnone); [by_computation|].
  split; [done|]. split.
  - rewrite Htxt by (vm_compute; reflexivity).
    unfold read_txt_sentences, read_text, mbind, M_bind.
    by rewrite world_with_lookup.
  - apply Hnone. by_computation.
Defined.

(** A file named "txt" inside a directory has the whole path as its tag
    and is not read. *)
Example file_named_txt_in_directory :
  file_ext (lit "docs/txt") = lit "docs/txt"
  ∧ (read_file_sentences Sample.soup_get_text (lit "docs/txt")
       (Sample.world_with (lit "docs/txt") Sample.note)).1 = [].
Proof. vm_compute. done. Qed.

(** C9 as stated fails: the dotless path "xml" is not the path "txt",
    and yet the file is read (as XML) and yields two units. *)
Lemma dotless_xml_path_is_read :
  ¬ (∀ soup_get_text file_path w,
       "."%char ∉ file_path → file_path ≠ lit "txt" →
       (read_file_sentences soup_get_text file_path w).1 = []).
Proof.
  intros H.
  specialize (H Sample.soup_get_text (lit "xml")
                (Sample.world_with (lit "xml") Sample.small_xml)).
  assert ((read_file_sentences Sample.soup_get_text (lit "xml")
             (Sample.world_with (lit "xml") Sample.small_xml)).1
          = [lit "XML Phrase 1: The levy applies to all carriers.";
             lit "XML Phrase 2: It starts in March!"]) as E
    by (vm_compute; reflexivity).
  rewrite H in E; [discriminate E | |].
  - by_computation.
  - by_computation.
Qed.

(** ** The run *)
Section RunProperties.

Variable converse : nat → request → outcome.
Variable soup_get_text : pystr → outcome.

Lemma world_eta w : World (fs w) (write_error w) (stdout w) (calls w) = w.
Proof. by destruct w. Qed.

Lemma read_file_sentences_frame file_path w :
  let w' := (read_file_sentences soup_get_text file_path w).2 in
  fs w' = fs w ∧ write_error w' = write_error w ∧ calls w' = calls w.
Proof.
  unfold read_file_sentences, read_xml_sentences, read_html_sentences,
    read_txt_sentences, read_text, print, mbind, M_bind, mret, M_ret.
  repeat case_bool_decide; simpl;
    destruct (fs w !! file_path) as [[content|e]|]; simpl; try done;
    destruct (soup_get_text content); done.
Qed.

Lemma read_file_sentences_reads file_path w w' :
  fs w !! file_path = fs w' !! file_path →
  (read_file_sentences soup_get_text file_path w).1
  = (read_file_sentences soup_get_text file_path w').1.
Proof.
  intros E.
  unfold read_file_sentences, read_xml_sentences, read_html_sentences,
    read_txt_sentences, read_text, print, mbind, M_bind, mret, M_ret.
  repeat case_bool_decide; simpl; rewrite ?E;
    destruct (fs w' !! file_path) as [[content|e]|]; simpl; try done;
    destruct (soup_get_text content); done.
Qed.

Lemma analyze_chunk_run sentences i total w :
  analyze_chunk converse sentences i total w
  = (chunk_text converse (length (calls w)) sentences i total,
     World (fs w) (write_error w) (stdout w) (calls w ++ [chunk_request sentences i total])).
Proof.
  unfold analyze_chunk, call_converse, chunk_text, chunk_request, mbind, M_bind.
  by destruct (converse _ _).
Qed.

Lemma fusion_analysis_run chunk_results w :
  fusion_analysis converse chunk_results w
  = (fusion_text converse (length (calls w)) chunk_results,
     World (fs w) (write_error w) (stdout w) (calls w ++ [fusion_request chunk_results])).
Proof.
  unfold fusion_analysis, call_converse, fusion_text, fusion_request, mbind, M_bind.
  by destruct (converse _ _).
Qed.

Lemma analyze_loop total : ∀ chunks i acc w,
  for_each
    (λ '(i, chunk) results,
       result ← analyze_chunk converse chunk i total;
       mret (results ++ [chunk_label i result]))
    (enumerate i chunks) acc w
  = (acc ++ imap (λ k chunk,
                    chunk_label (i + k)
                      (chunk_text converse (length (calls w) + k) chunk (i + k) total))
                 chunks,
     World (fs w) (write_error w) (stdout w)
       (calls w ++ imap (λ k chunk, chunk_request chunk (i + k) total) chunks)).
Proof.
  induction chunks as [|chunk chunks IH]; intros i acc w.
  - simpl. rewrite !app_nil_r. by rewrite world_eta.
  - cbn [enumerate for_each]. unfold mbind at 1. unfold M_bind at 1.
    unfold mbind at 1. unfold M_bind at 1. rewrite analyze_chunk_run.
    unfold mret at 1. unfold M_ret at 1. rewrite IH. simpl.
    rewrite !Nat.add_0_r, length_app, <- !app_assoc. simpl.
    f_equal; [f_equal; f_equal | f_equal; f_equal; f_equal].
    + apply imap_ext. intros k x _. simpl.
      replace (S (i + k)) with (i + S k) by lia.
      replace (length (calls w) + 1 + k) with (length (calls w) + S k) by lia. done.
    + apply imap_ext. intros k x _. simpl.
      by replace (S (i + k)) with (i + S k) by lia.
Qed.

Lemma analyze_chunks_run chunks w :
  analyze_chunks converse chunks w
  = (run_results converse (length (calls w)) chunks,
     World (fs w) (write_error w) (stdout w) (calls w ++ run_requests chunks)).
Proof.
  unfold analyze_chunks. rewrite analyze_loop. simpl.
  unfold run_results, run_texts, run_requests. f_equal.
  - apply list_eq. intros k. rewrite !list_lookup_imap.
    destruct (chunks !! k); simpl; [|done].
    by replace (k + 1) with (S k) by lia.
  - f_equal. f_equal. apply imap_ext. intros k x _. simpl.
    by replace (k + 1) with (S k) by lia.
Qed.

Lemma main_run prog file_path w :
  is_Some (fs w !! file_path) →
  let loaded := loading soup_get_text file_path w in
  loaded.1 ≠ [] →
  let chunks := make_chunks loaded.1 CHUNK_SIZE in
  let results := run_results converse (length (calls w)) chunks in
  let final_report := fusion_text converse (length (calls w) + length chunks) results in
  let printed :=
    stdout loaded.2 ++ [MsgRule; MsgTitle; MsgRule; MsgReport final_report; MsgRule] in
  let called := calls w ++ run_requests chunks ++ [fusion_request results] in
  main converse soup_get_text [prog; file_path] w
  = match write_error w (output_file_of file_path) with
    | None =>
        (Exit0, World (<[output_file_of file_path := Text final_report]> (fs w))
                  (write_error w) printed called)
    | Some _ => (Exit1, World (fs w) (write_error w) printed called)
    end.
Proof.
  intros Hfile loaded Hne chunks results final_report printed called.
  unfold main, path_exists. unfold mbind at 1. unfold M_bind at 1.
  rewrite bool_decide_eq_true_2 by done. cbn [negb].
  unfold mbind at 1. unfold M_bind at 1. unfold print at 1.
  unfold mbind at 1. unfold M_bind at 1. unfold print at 1. cbn [fs write_error stdout calls].
  unfold mbind at 1. unfold M_bind at 1.
  fold (loading soup_get_text file_path w). fold loaded.
  pose proof (read_file_sentences_frame file_path
    (World (fs w) (write_error w) ((stdout w ++ [MsgStarting]) ++ [MsgFile file_path])
       (calls w))) as Hframe.
  cbv zeta in Hframe. fold (loading soup_get_text file_path w) in Hframe.
  fold loaded in Hframe. cbn [fs write_error stdout calls] in Hframe.
  destruct Hframe as (Hfs & Hwe & Hcalls).
  destruct loaded as [sentences wl] eqn:Hl. cbn [fst snd] in *.
  rewrite bool_decide_eq_false_2 by done.
  unfold mbind at 1. unfold M_bind at 1. rewrite analyze_chunks_run.
  unfold mbind at 1. unfold M_bind at 1. rewrite fusion_analysis_run.
  cbn [fs write_error stdout calls]. rewrite length_app.
  replace (length (run_requests (make_chunks sentences CHUNK_SIZE)))
    with (length chunks) by (unfold run_requests; by rewrite length_imap).
  rewrite Hcalls. fold chunks. fold results. fold final_report.
  unfold mbind, M_bind, print, write_text, mret, M_ret. cbn [fs write_error stdout calls].
  rewrite Hfs, Hwe.
  subst printed called. rewrite <- !app_assoc. simpl.
  by destruct (write_error w (output_file_of file_path)).
Qed.

Lemma main_no_sentences prog file_path w :
  is_Some (fs w !! file_path) →
  (loading soup_get_text file_path w).1 = [] →
  main converse soup_get_text [prog; file_path] w
  = (Exit0, (loading soup_get_text file_path w).2).
Proof.
  intros Hfile Hempty.
  unfold main, path_exists. unfold mbind at 1. unfold M_bind at 1.
  rewrite bool_decide_eq_true_2 by done. cbn [negb].
  unfold mbind at 1. unfold M_bind at 1. unfold print at 1.
  unfold mbind at 1. unfold M_bind at 1. unfold print at 1. cbn [fs write_error stdout calls].
  unfold mbind at 1. unfold M_bind at 1.
  fold (loading soup_get_text file_path w).
  destruct (loading soup_get_text file_path w) as [sentences wl]. simpl in *.
  by rewrite bool_decide_eq_true_2.
Qed.

End RunProperties.

(** ** The prompts *)
Section Prompts.

Lemma join_cons sep x y rest : join sep (x :: y :: rest) = x ++ sep ++ join sep (y :: rest).
Proof. done. Qed.

(** The fusion prompt is a fixed head, the results joined by a blank
    line, and a fixed tail. *)
Lemma fusion_prompt_shape :
  ∃ head tail,
    head = lit "Based on these chunk analyses of a regulatory bill, provide a consolidated report:"
           ++ [NL; NL]
    ∧ (∀ chunk_results,
         fusion_prompt chunk_results = head ++ join [NL; NL] chunk_results ++ tail).
Proof.
  eexists _, _. split; [reflexivity|]. intros chunk_results.
  unfold fusion_prompt. cbn [app]. rewrite !join_cons.
  rewrite <- !app_assoc. cbn [app]. reflexivity.
Qed.

Lemma structured_starts report : structured report → ∃ rest, report = "1"%char :: rest.
Proof. intros (b1 & b2 & b3 & b4 & ->). eexists. reflexivity. Qed.

(** The section headings are lines of the structure in the prompt. *)
Example report_structure_headings :
  (λ i, REPORT_STRUCTURE !! i) <$> [0; 3; 10; 23]
  = Some <$> ["1. BILL SUMMARY:"; "2. TOP 5 IMPACTED SECTORS:";
              "3. TOP 3 STOCKS PER SECTOR:"; "4. MARKET PREDICTIONS:"].
Proof. reflexivity. Qed.

End Prompts.

(** C1. When the completion call for a chunk raises, [analyze_chunk]
    does not raise: it answers "Chunk <ordinal> analysis failed:
    <diagnostic>" for that ordinal; this text is the chunk's entry among
    the results given to the fusion call, next to the entries of the
    chunks whose calls returned, which hold the returned texts; and the
    run goes on to make the fusion call, print the report and write it to
    the artifact, ending with status 0 (the artifact being writable).
    The report is what the fusion call answered: the text it returned,
    or "Fusion analysis failed: <diagnostic>" when it raised as well. *)
Theorem chunk_failure_is_contained
    (converse : nat → request → outcome) (soup_get_text : pystr → outcome)
    (prog file_path : pystr) (w : world) (k : nat) (chunk : list pystr) (e : pystr) :
  is_Some (fs w !! file_path) →
  let chunks := make_chunks (loading soup_get_text file_path w).1 CHUNK_SIZE in
  chunks !! k = Some chunk →
  converse (length (calls w) + k) (chunk_request chunk (k + 1) (length chunks)) = Raised e →
  write_error w (output_file_of file_path) = None →
  let failure := lit "Chunk " ++ str_of_nat (k + 1) ++ lit " analysis failed: " ++ e in
  let run := main converse soup_get_text [prog; file_path] w in
  (∀ w', length (calls w') = length (calls w) + k →
     (analyze_chunk converse chunk (k + 1) (length chunks) w').1 = failure)
  ∧ ∃ results final_report,
      length results = length chunks
      ∧ results !! k = Some (chunk_label (k + 1) failure)
      ∧ (∀ j chunk_j text, chunks !! j = Some chunk_j →
           converse (length (calls w) + j) (chunk_request chunk_j (j + 1) (length chunks))
           = Returned text →
           results !! j = Some (chunk_label (j + 1) text))
      ∧ last (calls run.2) = Some (fusion_request results)
      ∧ length (calls run.2) = length (calls w) + length chunks + 1
      ∧ (∀ text, converse (length (calls w) + length chunks) (fusion_request results)
                 = Returned text →
           final_report = text)
      ∧ (∀ e', converse (length (calls w) + length chunks) (fusion_request results)
               = Raised e' →
           final_report = lit "Fusion analysis failed: " ++ e')
      ∧ MsgReport final_report ∈ stdout run.2
      ∧ (∃ printed, stdout run.2 = printed ++ [MsgReport final_report; MsgRule])
      ∧ fs run.2 = <[output_file_of file_path := Text final_report]> (fs w)
      ∧ fs run.2 !! output_file_of file_path = Some (Text final_report)
      ∧ run.1 = Exit0.
Proof.
  intros Hfile chunks Hk Hraise Hwrite failure run.
  assert ((loading soup_get_text file_path w).1 ≠ []) as Hne.
  { intros E. subst chunks. rewrite E, make_chunks_nil in Hk. done. }
  split.
  - intros w' Hw'. rewrite analyze_chunk_run. simpl.
    unfold chunk_text. by rewrite Hw', Hraise.
  - exists (run_results converse (length (calls w)) chunks),
      (fusion_text converse (length (calls w) + length chunks)
         (run_results converse (length (calls w)) chunks)).
    subst run. rewrite (main_run converse soup_get_text prog file_path w Hfile Hne).
    fold chunks. rewrite Hwrite. cbn [fst snd fs stdout calls].
    split_and!.
    + unfold run_results, run_texts. by rewrite !length_imap.
    + unfold run_results, run_texts. rewrite !list_lookup_imap, Hk. simpl.
      unfold chunk_text. by rewrite Hraise.
    + intros j chunk_j text Hj Hreturn.
      unfold run_results, run_texts. rewrite !list_lookup_imap, Hj. simpl.
      unfold chunk_text. by rewrite Hreturn.
    + by rewrite !app_assoc, last_snoc.
    + rewrite !length_app. unfold run_requests. rewrite length_imap. simpl. lia.
    + intros text Hreturn. unfold fusion_text. by rewrite Hreturn.
    + intros e' Hraise'. unfold fusion_text. by rewrite Hraise'.
    + rewrite elem_of_app. right. set_solver.
    + eexists (stdout _ ++ [MsgRule; MsgTitle; MsgRule]). by rewrite <- app_assoc.
    + done.
    + apply lookup_insert_eq.
    + done.
Qed.

(** C3. The prompt of the fusion call is a fixed head, then the chunk
    entries joined by blank lines, then a fixed tail; there is one entry
    per chunk, in ascending ordinal; the entry of ordinal i is
    "CHUNK i:", a line break and the text that [analyze_chunk] answered for
    that chunk, which is the failure marker when its call raised. *)
Theorem fusion_prompt_in_order
    (converse : nat → request → outcome) (soup_get_text : pystr → outcome)
    (prog file_path : pystr) (w : world) :
  is_Some (fs w !! file_path) →
  (loading soup_get_text file_path w).1 ≠ [] →
  let chunks := make_chunks (loading soup_get_text file_path w).1 CHUNK_SIZE in
  let run := main converse soup_get_text [prog; file_path] w in
  ∃ texts head tail,
    length texts = length chunks
    ∧ (∀ k chunk w', chunks !! k = Some chunk →
         length (calls w') = length (calls w) + k →
         texts !! k = Some (analyze_chunk converse chunk (k + 1) (length chunks) w').1)
    ∧ (∀ k chunk e, chunks !! k = Some chunk →
         converse (length (calls w) + k) (chunk_request chunk (k + 1) (length chunks))
         = Raised e →
         texts !! k
         = Some (lit "Chunk " ++ str_of_nat (k + 1) ++ lit " analysis failed: " ++ e))
    ∧ head = lit "Based on these chunk analyses of a regulatory bill, provide a consolidated report:"
             ++ [NL; NL]
    ∧ (prompt <$> last (calls run.2))
      = Some (head
              ++ join [NL; NL]
                   (imap (λ k text, lit "CHUNK " ++ str_of_nat (k + 1) ++ lit ":" ++ [NL] ++ text)
                      texts)
              ++ tail)
    ∧ (∀ results, fusion_prompt results = head ++ join [NL; NL] results ++ tail).
Proof.
  intros Hfile Hne chunks run.
  destruct fusion_prompt_shape as (head & tail & Hhead & Hshape).
  exists (run_texts converse (length (calls w)) chunks), head, tail.
  split; [|split; [|split; [|split; [done|split; [|done]]]]].
  - unfold run_texts. by rewrite length_imap.
  - intros k chunk w' Hk Hw'. rewrite analyze_chunk_run. simpl. rewrite Hw'.
    unfold run_texts. by rewrite list_lookup_imap, Hk.
  - intros k chunk e Hk Hraise. unfold run_texts. rewrite list_lookup_imap, Hk. simpl.
    unfold chunk_text. by rewrite Hraise.
  - subst run. rewrite (main_run converse soup_get_text prog file_path w Hfile Hne).
    fold chunks.
    destruct (write_error w (output_file_of file_path)); cbn [fst snd calls];
      rewrite (app_assoc (calls w)), last_snoc;
      cbn [fmap option_fmap option_map prompt fusion_request];
      by rewrite Hshape.
Qed.

(** C7. When the fusion call raises, [fusion_analysis] does not raise:
    it answers "Fusion analysis failed: <diagnostic>"; the run prints
    that text as the report, writes it to the artifact and ends with
    status 0 (the artifact being writable); and the text differs from
    every report in the fixed structure, which opens with
    "1. BILL SUMMARY:". *)
Theorem fusion_failure_is_reported
    (converse : nat → request → outcome) (soup_get_text : pystr → outcome)
    (prog file_path : pystr) (w : world) (e : pystr) :
  is_Some (fs w !! file_path) →
  (loading soup_get_text file_path w).1 ≠ [] →
  let chunks := make_chunks (loading soup_get_text file_path w).1 CHUNK_SIZE in
  let results := run_results converse (length (calls w)) chunks in
  converse (length (calls w) + length chunks) (fusion_request results) = Raised e →
  write_error w (output_file_of file_path) = None →
  let failure := lit "Fusion analysis failed: " ++ e in
  let run := main converse soup_get_text [prog; file_path] w in
  (∀ w', length (calls w') = length (calls w) + length chunks →
     (fusion_analysis converse results w').1 = failure)
  ∧ last (calls run.2) = Some (fusion_request results)
  ∧ MsgReport failure ∈ stdout run.2
  ∧ fs run.2 !! output_file_of file_path = Some (Text failure)
  ∧ fs run.2 = <[output_file_of file_path := Text failure]> (fs w)
  ∧ run.1 = Exit0
  ∧ (∀ report, structured report → failure ≠ report).
Proof.
  intros Hfile Hne chunks results Hraise Hwrite failure run.
  assert (fusion_text converse (length (calls w) + length chunks) results = failure) as Htext.
  { unfold fusion_text. by rewrite Hraise. }
  split; [|subst run; rewrite (main_run converse soup_get_text prog file_path w Hfile Hne);
           fold chunks results; rewrite Hwrite, Htext; cbn [fst snd fs stdout calls];
           split; [|split; [|split; [|split; [done|split; [done|]]]]]].
  - intros w' Hw'. rewrite fusion_analysis_run. simpl. by rewrite Hw'.
  - by rewrite !app_assoc, last_snoc.
  - rewrite elem_of_app. right. set_solver.
  - apply lookup_insert_eq.
  - intros report [rest ->]%structured_starts. subst failure. discriminate.
Qed.

(** ** Sample runs *)

(** The sample run of three chunks, the second of which times out. *)
Lemma chunk_failure_is_contained_witness :
  let w := Sample.world_with (lit "bill.txt") Sample.document in
  let chunks := make_chunks (loading Sample.soup_get_text (lit "bill.txt") w).1 CHUNK_SIZE in
  let failure :=
    lit "Chunk " ++ str_of_nat (1 + 1) ++ lit " analysis failed: " ++ lit "Read timeout" in
  let run :=
    main Sample.converse Sample.soup_get_text [lit "chunked_analyzer.py"; lit "bill.txt"] w in
  (∀ w', length (calls w') = length (calls w) + 1 →
     (analyze_chunk Sample.converse (Sample.sentence <$> seq 400 400) (1 + 1)
        (length chunks) w').1 = failure)
  ∧ ∃ results final_report,
      length results = length chunks
      ∧ results !! 1 = Some (chunk_label (1 + 1) failure)
      ∧ (∀ j chunk_j text, chunks !! j = Some chunk_j →
           Sample.converse (length (calls w) + j)
             (chunk_request chunk_j (j + 1) (length chunks))
           = Returned text →
           results !! j = Some (chunk_label (j + 1) text))
      ∧ last (calls run.2) = Some (fusion_request results)
      ∧ length (calls run.2) = length (calls w) + length chunks + 1
      ∧ (∀ text, Sample.converse (length (calls w) + length chunks) (fusion_request results)
                 = Returned text →
           final_report = text)
      ∧ (∀ e', Sample.converse (length (calls w) + length chunks) (fusion_request results)
               = Raised e' →
           final_report = lit "Fusion analysis failed: " ++ e')
      ∧ MsgReport final_report ∈ stdout run.2
      ∧ (∃ printed, stdout run.2 = printed ++ [MsgReport final_report; MsgRule])
      ∧ fs run.2 = <[output_file_of (lit "bill.txt") := Text final_report]> (fs w)
      ∧ fs run.2 !! output_file_of (lit "bill.txt") = Some (Text final_report)
      ∧ run.1 = Exit0.
Proof.
  apply (chunk_failure_is_contained Sample.converse Sample.soup_get_text
           (lit "chunked_analyzer.py") (lit "bill.txt")
           (Sample.world_with (lit "bill.txt") Sample.document)
           1 (Sample.sentence <$> seq 400 400) (lit "Read timeout")).
  - eexists. apply world_with_lookup.
  - vm_compute. reflexivity.
  - vm_compute. reflexivity.
  - reflexivity.
Defined.

(** The fusion prompt of the same run. *)
Lemma fusion_prompt_in_order_witness :
  let w := Sample.world_with (lit "bill.txt") Sample.document in
  let chunks := make_chunks (loading Sample.soup_get_text (lit "bill.txt") w).1 CHUNK_SIZE in
  let run :=
    main Sample.converse Sample.soup_get_text [lit "chunked_analyzer.py"; lit "bill.txt"] w in
  ∃ texts head tail,
    length texts = length chunks
    ∧ (∀ k chunk w', chunks !! k = Some chunk →
         length (calls w') = length (calls w) + k →
         texts !! k
         = Some (analyze_chunk Sample.converse chunk (k + 1) (length chunks) w').1)
    ∧ (∀ k chunk e, chunks !! k = Some chunk →
         Sample.converse (length (calls w) + k) (chunk_request chunk (k + 1) (length chunks))
         = Raised e →
         texts !! k
         = Some (lit "Chunk " ++ str_of_nat (k + 1) ++ lit " analysis failed: " ++ e))
    ∧ head = lit "Based on these chunk analyses of a regulatory bill, provide a consolidated report:"
             ++ [NL; NL]
    ∧ (prompt <$> last (calls run.2))
      = Some (head
              ++ join [NL; NL]
                   (imap (λ k text, lit "CHUNK " ++ str_of_nat (k + 1) ++ lit ":" ++ [NL] ++ text)
                      texts)
              ++ tail)
    ∧ (∀ results, fusion_prompt results = head ++ join [NL; NL] results ++ tail).
Proof.
  apply (fusion_prompt_in_order Sample.converse Sample.soup_get_text
           (lit "chunked_analyzer.py") (lit "bill.txt")
           (Sample.world_with (lit "bill.txt") Sample.document)).
  - eexists. apply world_with_lookup.
  - by_computation.
Defined.

(** The entries of the sample run, as the fusion prompt lists them: the
    second chunk call timed out. *)
Example sample_run_results :
  run_results Sample.converse 0
    (make_chunks (loading Sample.soup_get_text (lit "bill.txt")
                    (Sample.world_with (lit "bill.txt") Sample.document)).1 CHUNK_SIZE)
  = [lit "CHUNK 1:" ++ [NL] ++ lit "analysis 0";
     lit "CHUNK 2:" ++ [NL] ++ lit "Chunk 2 analysis failed: Read timeout";
     lit "CHUNK 3:" ++ [NL] ++ lit "analysis 2"].
Proof. vm_compute. reflexivity. Qed.

(** A run whose every call, the fusion call included, times out. *)
Lemma fusion_failure_is_reported_witness :
  let w := Sample.world_with (lit "note.txt") Sample.note in
  let chunks := make_chunks (loading Sample.soup_get_text (lit "note.txt") w).1 CHUNK_SIZE in
  let results := run_results Sample.timeout (length (calls w)) chunks in
  let failure := lit "Fusion analysis failed: " ++ lit "Read timeout" in
  let run :=
    main Sample.timeout Sample.soup_get_text [lit "chunked_analyzer.py"; lit "note.txt"] w in
  (∀ w', length (calls w') = length (calls w) + length chunks →
     (fusion_analysis Sample.timeout results w').1 = failure)
  ∧ last (calls run.2) = Some (fusion_request results)
  ∧ MsgReport failure ∈ stdout run.2
  ∧ fs run.2 !! output_file_of (lit "note.txt") = Some (Text failure)
  ∧ fs run.2 = <[output_file_of (lit "note.txt") := Text failure]> (fs w)
  ∧ run.1 = Exit0
  ∧ (∀ report, structured report → failure ≠ report).
Proof.
  apply (fusion_failure_is_reported Sample.timeout Sample.soup_get_text
           (lit "chunked_analyzer.py") (lit "note.txt")
           (Sample.world_with (lit "note.txt") Sample.note) (lit "Read timeout")).
  - eexists. apply world_with_lookup.
  - by_computation.
  - reflexivity.
  - reflexivity.
Defined.

(** A completion that succeeds with the very text of the failure marker
    is reported exactly as a failed fusion call is: the report is plain
    text and carries no flag of its own. *)
Remark fusion_marker_is_plain_text (e : pystr) (call : nat) (results : list pystr) :
  fusion_text (λ _ _, Returned (lit "Fusion analysis failed: " ++ e)) call results
  = fusion_text (λ _ _, Raised e) call results.
Proof. reflexivity. Qed.

(** ** The artifact name *)
Section ArtifactName.

Lemma rfind_go_spec c s : ∀ i found,
  ((c ∉ s) ∧ rfind_go c s i found = found)
  ∨ ∃ pre suf, s = pre ++ c :: suf ∧ (c ∉ suf)
               ∧ rfind_go c s i found = (i + Z.of_nat (length pre))%Z.
Proof.
  induction s as [|x s IH]; intros i found; simpl.
  - left. split; [apply not_elem_of_nil | done].
  - destruct (IH (i + 1)%Z (if Ascii.eqb x c then i else found))
      as [[Hni E]|(pre & suf & -> & Hni & E)].
    + destruct (Ascii.eqb_spec x c) as [->|Hne].
      * right. exists [], s. simpl. repeat split; [done|]. rewrite E. lia.
      * left. split; [|done]. by apply not_elem_of_cons.
    + right. exists (x :: pre), suf. repeat split; [done|]. rewrite E. simpl length. lia.
Qed.

Lemma rfind_spec c s :
  ((c ∉ s) ∧ rfind c s = (-1)%Z)
  ∨ ∃ pre suf, s = pre ++ c :: suf ∧ (c ∉ suf) ∧ rfind c s = Z.of_nat (length pre).
Proof.
  unfold rfind. destruct (rfind_go_spec c s 0 (-1)) as [?|(pre & suf & ? & ? & E)]; [by left|].
  right. exists pre, suf. by rewrite E.
Qed.

Lemma rfind_ge c s : (-1 ≤ rfind c s)%Z.
Proof. destruct (rfind_spec c s) as [[_ ->]|(pre & suf & _ & _ & ->)]; lia. Qed.

Lemma basename_spec p :
  ("/"%char ∉ basename p) ∧ ("/"%char ∉ p → basename p = p).
Proof.
  unfold basename. destruct (rfind_spec "/" p) as [[Hni ->]|(pre & suf & -> & Hni & ->)].
  - simpl. by rewrite drop_0.
  - replace (Z.to_nat (Z.of_nat (length pre) + 1)) with (length (pre ++ ["/"%char]))
      by (rewrite length_app; simpl; lia).
    rewrite (cons_middle "/"%char pre suf), app_assoc, drop_app_length.
    split; [done|]. intros Hno. exfalso. apply Hno. set_solver.
Qed.

Lemma splitext_spec p :
  (splitext p).1 = p
  ∨ ∃ suf, p = (splitext p).1 ++ "."%char :: suf ∧ "."%char ∉ suf.
Proof.
  unfold splitext. destruct (rfind_spec "." p) as [[Hni ->]|(pre & suf & -> & Hni & ->)].
  - left. assert ((rfind "/" p <? -1)%Z = false) as ->; [|done].
    apply Z.ltb_ge. pose proof (rfind_ge "/" p). lia.
  - destruct (_ && _); [|by left]. right. exists suf. simpl.
    by rewrite Nat2Z.id, take_app_length.
Qed.

Lemma last_separator_unique {A} (c : A) a : ∀ a' b b',
  a ++ c :: b = a' ++ c :: b' → c ∉ b → c ∉ b' → a = a'.
Proof.
  induction a as [|x a IH]; intros [|x' a'] b b' E Hb Hb'; simpl in E.
  - done.
  - injection E as -> ->. exfalso. apply Hb. set_solver.
  - injection E as -> <-. exfalso. apply Hb'. set_solver.
  - injection E as -> E. f_equal. by apply (IH a' b b').
Qed.

(** The name of the artifact differs from the path given as argument. *)
Lemma output_file_differs file_path : output_file_of file_path ≠ file_path.
Proof.
  unfold output_file_of. cbn zeta. intros E.
  destruct (basename_spec file_path) as [Hslash Hwhole].
  assert ("/"%char ∉ (splitext (basename file_path)).1) as Hbase.
  { destruct (splitext_spec (basename file_path)) as [->|(suf & Es & _)]; [done|].
    rewrite Es in Hslash. set_solver. }
  assert (basename file_path = file_path) as Eb.
  { apply Hwhole. rewrite <- E. rewrite !not_elem_of_app. split; [|split; [done|]].
    - by_computation.
    - by_computation. }
  rewrite Eb in E.
  destruct (splitext_spec file_path) as [Es|(suf & Es & Hsuf)].
  - rewrite Es in E. apply (f_equal length) in E. rewrite !length_app in E.
    simpl in E. lia.
  - rewrite Es in E at 2.
    change (lit ".txt") with ("."%char :: lit "txt") in E. rewrite app_assoc in E.
    apply last_separator_unique in E; [| by_computation | done].
    apply (f_equal length) in E. rewrite length_app in E. simpl in E. lia.
Qed.

End ArtifactName.

(** C8. The artifact is named "consolidated_analysis_<base>.txt", <base>
    being the base name of the input file without its extension, so that
    two paths with the same base name give the same artifact; the sink
    replaces the content of that file.  Running the pipeline twice on the
    same document, both runs write the artifact and end with status 0;
    after the second run the artifact holds the second report and the set
    of files is the one left by the first run. *)
Theorem sink_overwrites
    (converse1 converse2 : nat → request → outcome) (soup_get_text : pystr → outcome)
    (prog file_path : pystr) (w : world) :
  is_Some (fs w !! file_path) →
  (loading soup_get_text file_path w).1 ≠ [] →
  write_error w (output_file_of file_path) = None →
  let out := output_file_of file_path in
  let run1 := main converse1 soup_get_text [prog; file_path] w in
  let run2 := main converse2 soup_get_text [prog; file_path] run1.2 in
  out = lit "consolidated_analysis_" ++ (splitext (basename file_path)).1 ++ lit ".txt"
  ∧ (∀ other, basename other = basename file_path → output_file_of other = out)
  ∧ ∃ report1 report2,
      run1.1 = Exit0
      ∧ (∃ printed, stdout run1.2 = printed ++ [MsgReport report1; MsgRule])
      ∧ fs run1.2 = <[out := Text report1]> (fs w)
      ∧ run2.1 = Exit0
      ∧ (∃ printed, stdout run2.2 = printed ++ [MsgReport report2; MsgRule])
      ∧ fs run2.2 = <[out := Text report2]> (fs w)
      ∧ fs run2.2 !! out = Some (Text report2)
      ∧ dom (fs run2.2) = dom (fs run1.2).
Proof.
  intros Hfile Hne Hwrite out run1 run2.
  split; [done|]. split.
  { intros other Eo. subst out. unfold output_file_of. by rewrite Eo. }
  pose proof (main_run converse1 soup_get_text prog file_path w Hfile Hne) as E1.
  cbv zeta in E1. rewrite Hwrite in E1. fold out run1 in E1.
  set (chunks := make_chunks (loading soup_get_text file_path w).1 CHUNK_SIZE) in *.
  set (report1 := fusion_text converse1 _ _) in E1.
  assert (fs run1.2 = <[out := Text report1]> (fs w)) as Hfs1 by (by rewrite E1).
  assert (write_error run1.2 = write_error w) as Hwe1 by (by rewrite E1).
  assert (fs run1.2 !! file_path = fs w !! file_path) as Hsame.
  { rewrite Hfs1. apply lookup_insert_ne. apply output_file_differs. }
  assert (is_Some (fs run1.2 !! file_path)) as Hfile2 by (by rewrite Hsame).
  assert ((loading soup_get_text file_path run1.2).1 = (loading soup_get_text file_path w).1)
    as Hload by (by apply read_file_sentences_reads).
  assert ((loading soup_get_text file_path run1.2).1 ≠ []) as Hne2 by (by rewrite Hload).
  pose proof (main_run converse2 soup_get_text prog file_path run1.2 Hfile2 Hne2) as E2.
  cbv zeta in E2. rewrite Hwe1, Hwrite in E2. fold out run2 in E2.
  set (report2 := fusion_text converse2 _ _) in E2.
  exists report1, report2.
  assert (fs run2.2 = <[out := Text report2]> (fs w)) as Hfs2.
  { rewrite E2. cbn [snd fs]. rewrite Hfs1. apply insert_insert_eq. }
  split; [by rewrite E1|]. split.
  { rewrite E1. cbn [snd stdout]. eexists (_ ++ [_; _; _]).
    by rewrite <- app_assoc. }
  split; [done|]. split; [by rewrite E2|]. split.
  { rewrite E2. cbn [snd stdout]. eexists (_ ++ [_; _; _]).
    by rewrite <- app_assoc. }
  split; [done|]. split.
  - rewrite Hfs2. apply lookup_insert_eq.
  - rewrite Hfs2, Hfs1. by rewrite !dom_insert_L.
Qed.

(** Two runs on "docs/bill.v2.txt", with different answers of the service. *)
Lemma sink_overwrites_witness :
  let w := Sample.world_with (lit "docs/bill.v2.txt") Sample.note in
  let out := output_file_of (lit "docs/bill.v2.txt") in
  let run1 :=
    main Sample.converse Sample.soup_get_text
      [lit "chunked_analyzer.py"; lit "docs/bill.v2.txt"] w in
  let run2 :=
    main Sample.timeout Sample.soup_get_text
      [lit "chunked_analyzer.py"; lit "docs/bill.v2.txt"] run1.2 in
  out = lit "consolidated_analysis_" ++ (splitext (basename (lit "docs/bill.v2.txt"))).1
        ++ lit ".txt"
  ∧ (∀ other, basename other = basename (lit "docs/bill.v2.txt") →
       output_file_of other = out)
  ∧ ∃ report1 report2,
      run1.1 = Exit0
      ∧ (∃ printed, stdout run1.2 = printed ++ [MsgReport report1; MsgRule])
      ∧ fs run1.2 = <[out := Text report1]> (fs w)
      ∧ run2.1 = Exit0
      ∧ (∃ printed, stdout run2.2 = printed ++ [MsgReport report2; MsgRule])
      ∧ fs run2.2 = <[out := Text report2]> (fs w)
      ∧ fs run2.2 !! out = Some (Text report2)
      ∧ dom (fs run2.2) = dom (fs run1.2).
Proof.
  apply (sink_overwrites Sample.converse Sample.timeout Sample.soup_get_text
           (lit "chunked_analyzer.py") (lit "docs/bill.v2.txt")
           (Sample.world_with (lit "docs/bill.v2.txt") Sample.note)).
  - eexists. apply world_with_lookup.
  - by_computation.
  - reflexivity.
Defined.

(** The artifact of the sample: directory and extension are dropped. *)
Example output_file_of_sample :
  output_file_of (lit "docs/bill.v2.txt") = lit "consolidated_analysis_bill.v2.txt".
Proof. vm_compute. reflexivity. Qed.

(** ** Input without units *)

(** What [main] does when the file exists and its format tag is
    unsupported or it yields no unit: it makes no completion call and
    writes no file, and it leaves through a plain [return], so that the
    process ends with status 0, the status that [upload_file] of the
    dashboard takes for a completed analysis.  An unsupported tag is
    reported in one line that names the tag; the guard on the empty list
    of units prints nothing. *)
Lemma main_without_units
    (converse : nat → request → outcome) (soup_get_text : pystr → outcome)
    (prog file_path : pystr) (w : world) :
  is_Some (fs w !! file_path) →
  file_ext file_path ∉ [lit "xml"; lit "html"; lit "txt"]
  ∨ (loading soup_get_text file_path w).1 = [] →
  let run := main converse soup_get_text [prog; file_path] w in
  run.1 = Exit0
  ∧ calls run.2 = calls w
  ∧ fs run.2 = fs w
  ∧ (file_ext file_path ∉ [lit "xml"; lit "html"; lit "txt"] →
       stdout run.2
       = stdout w ++ [MsgStarting; MsgFile file_path; MsgUnsupported (file_ext file_path)])
  ∧ (∀ content, fs w !! file_path = Some (Text content) → file_ext file_path = lit "txt" →
       stdout run.2 = stdout w ++ [MsgStarting; MsgFile file_path]).
Proof.
  intros Hfile Hcase run.
  assert ((loading soup_get_text file_path w).1 = []) as Hempty.
  { destruct Hcase as [Hext|]; [|done]. unfold loading.
    by rewrite read_file_sentences_unsupported. }
  subst run. rewrite (main_no_sentences converse soup_get_text prog file_path w Hfile Hempty).
  cbn [fst snd].
  pose proof (read_file_sentences_frame soup_get_text file_path
    (World (fs w) (write_error w) ((stdout w ++ [MsgStarting]) ++ [MsgFile file_path])
       (calls w))) as (Hfs & _ & Hcalls).
  fold (loading soup_get_text file_path w) in Hfs, Hcalls.
  split; [done|]. split; [done|]. split; [done|]. split.
  - intros Hext. unfold loading. rewrite read_file_sentences_unsupported by done.
    cbn [snd stdout]. by rewrite <- !app_assoc.
  - intros content Hcontent Hext. unfold loading, read_file_sentences.
    rewrite Hext. cbn [bool_decide]. rewrite !bool_decide_eq_false_2 by by_computation.
    rewrite bool_decide_eq_true_2 by done.
    unfold read_txt_sentences, read_text, mbind, M_bind. cbn [fs].
    rewrite Hcontent. cbn [snd mret M_ret stdout]. by rewrite <- !app_assoc.
Qed.

(** The run on a PDF. *)
Lemma main_without_units_witness :
  let w := Sample.world_with (lit "bill.pdf") Sample.note in
  let run :=
    main Sample.converse Sample.soup_get_text [lit "chunked_analyzer.py"; lit "bill.pdf"] w in
  run.1 = Exit0
  ∧ calls run.2 = calls w
  ∧ fs run.2 = fs w
  ∧ (file_ext (lit "bill.pdf") ∉ [lit "xml"; lit "html"; lit "txt"] →
       stdout run.2
       = stdout w ++ [MsgStarting; MsgFile (lit "bill.pdf");
                      MsgUnsupported (file_ext (lit "bill.pdf"))])
  ∧ (∀ content, fs w !! lit "bill.pdf" = Some (Text content) →
       file_ext (lit "bill.pdf") = lit "txt" →
       stdout run.2 = stdout w ++ [MsgStarting; MsgFile (lit "bill.pdf")]).
Proof.
  apply (main_without_units Sample.converse Sample.soup_get_text
           (lit "chunked_analyzer.py") (lit "bill.pdf")
           (Sample.world_with (lit "bill.pdf") Sample.note)).
  - eexists. apply world_with_lookup.
  - left. by_computation.
Defined.

(** The run on an uploaded PDF: one line names the unsupported type and
    the status is 0. *)
Example run_on_pdf :
  let run :=
    main Sample.converse Sample.soup_get_text [lit "chunked_analyzer.py"; lit "bill.pdf"]
      (Sample.world_with (lit "bill.pdf") Sample.note) in
  run.1 = Exit0
  ∧ stdout run.2 = [MsgStarting; MsgFile (lit "bill.pdf"); MsgUnsupported (lit "pdf")]
  ∧ calls run.2 = [].
Proof. vm_compute. done. Qed.

(** The run on a text file of one short line: nothing is printed after
    the banner, and the status is 0. *)
Example run_on_short_text :
  let run :=
    main Sample.converse Sample.soup_get_text [lit "chunked_analyzer.py"; lit "memo.txt"]
      (Sample.world_with (lit "memo.txt") (lit "Too short.")) in
  run.1 = Exit0
  ∧ stdout run.2 = [MsgStarting; MsgFile (lit "memo.txt")]
  ∧ calls run.2 = [].
Proof. vm_compute. done. Qed.

(** No run of this kind ends with a failure status on every input: the
    existing file with the unsupported tag "pdf" ends with status 0. *)
Lemma unsupported_input_exits_zero :
  ¬ (∀ converse soup_get_text prog file_path w,
       is_Some (fs w !! file_path) →
       file_ext file_path ∉ [lit "xml"; lit "html"; lit "txt"]
       ∨ (loading soup_get_text file_path w).1 = [] →
       (main converse soup_get_text [prog; file_path] w).1 = Exit1).
Proof.
  intros H.
  specialize (H Sample.converse Sample.soup_get_text (lit "chunked_analyzer.py")
                (lit "bill.pdf") (Sample.world_with (lit "bill.pdf") Sample.note)).
  assert ((main Sample.converse Sample.soup_get_text
             [lit "chunked_analyzer.py"; lit "bill.pdf"]
             (Sample.world_with (lit "bill.pdf") Sample.note)).1 = Exit0) as E
    by (vm_compute; reflexivity).
  rewrite H in E; [discriminate E | |].
  - eexists. apply world_with_lookup.
  - left. by_computation.
Qed.

(** C4. The claim asks for a non-zero exit status and a clear message.
    The code does not give them.  On the existing file "bill.pdf", whose
    tag is unsupported, [main] prints the line naming the tag and returns
    normally: the status is 0.  On the readable file "memo.txt", whose
    text "Too short." yields no unit, [main] prints nothing after the two
    banner lines and returns normally: the status is 0 and there is no
    message.  In both runs no completion call is made and no file is
    written, as the claim says. *)
Theorem input_errors_return_normally :
  let pdf_world := Sample.world_with (lit "bill.pdf") Sample.note in
  let pdf_run :=
    main Sample.converse Sample.soup_get_text [lit "chunked_analyzer.py"; lit "bill.pdf"]
      pdf_world in
  let memo_world := Sample.world_with (lit "memo.txt") (lit "Too short.") in
  let memo_run :=
    main Sample.converse Sample.soup_get_text [lit "chunked_analyzer.py"; lit "memo.txt"]
      memo_world in
  (file_ext (lit "bill.pdf") = lit "pdf"
   ∧ pdf_run.1 = Exit0
   ∧ stdout pdf_run.2 = [MsgStarting; MsgFile (lit "bill.pdf"); MsgUnsupported (lit "pdf")]
   ∧ calls pdf_run.2 = []
   ∧ fs pdf_run.2 = fs pdf_world)
  ∧ (read_file_sentences Sample.soup_get_text (lit "memo.txt") memo_world).1 = []
  ∧ memo_run.1 = Exit0
  ∧ stdout memo_run.2 = [MsgStarting; MsgFile (lit "memo.txt")]
  ∧ calls memo_run.2 = []
  ∧ fs memo_run.2 = fs memo_world.
Proof.
  intros pdf_world pdf_run memo_world memo_run.
  assert (is_Some (fs pdf_world !! lit "bill.pdf")) as Hpdf
    by (eexists; apply world_with_lookup).
  assert (is_Some (fs memo_world !! lit "memo.txt")) as Hmemo
    by (eexists; apply world_with_lookup).
  assert (file_ext (lit "bill.pdf") ∉ [lit "xml"; lit "html"; lit "txt"]) as Htag
    by by_computation.
  assert ((loading Sample.soup_get_text (lit "memo.txt") memo_world).1 = []) as Hunits
    by (vm_compute; reflexivity).
  destruct (main_without_units Sample.converse Sample.soup_get_text
              (lit "chunked_analyzer.py") (lit "bill.pdf") pdf_world Hpdf (or_introl Htag))
    as (Hstatus & Hcalls & Hfs & Hout & _).
  destruct (main_without_units Sample.converse Sample.soup_get_text
              (lit "chunked_analyzer.py") (lit "memo.txt") memo_world Hmemo
              (or_intror Hunits))
    as (Hstatus' & Hcalls' & Hfs' & _ & Hout').
  specialize (Hout Htag).
  specialize (Hout' _ (world_with_lookup _ _) eq_refl).
  split_and!; done.
Qed.

(** * Further properties of the pipeline *)

(** ** Extracted units *)
Section Units.

Lemma lstrip_fixed s : lstrip s = s ↔ s = [] ∨ ∃ c s', s = c :: s' ∧ isspace c = false.
Proof.
  split.
  - destruct s as [|c s]; [by left|]. simpl. destruct (isspace c) eqn:Ec.
    + intros E. pose proof (lstrip_length s) as Hl. rewrite E in Hl. simpl in Hl. lia.
    + intros _. right. by exists c, s.
  - intros [->|(c & s' & -> & Hc)]; [done|]. simpl. by rewrite Hc.
Qed.

Lemma rstrip_prefix s : ∃ tail, s = rstrip s ++ tail.
Proof.
  exists (reverse (lspaces (reverse s))). unfold rstrip.
  rewrite <- reverse_app, lspaces_lstrip. by rewrite reverse_involutive.
Qed.

Lemma strip_infix s : ∃ a b, s = a ++ strip s ++ b.
Proof.
  destruct (rstrip_prefix (lstrip s)) as [tail E].
  exists (lspaces s), tail. unfold strip. rewrite <- E. by rewrite lspaces_lstrip.
Qed.

Lemma strip_strip s : strip (strip s) = strip s.
Proof.
  unfold strip.
  assert (lstrip (rstrip (lstrip s)) = rstrip (lstrip s)) as ->.
  { destruct (rstrip_prefix (lstrip s)) as [tail E].
    apply lstrip_fixed. destruct (rstrip (lstrip s)) as [|c r] eqn:Er; [by left|].
    right. exists c, r. split; [done|].
    pose proof (lstrip_idemp s) as Hi. rewrite E in Hi.
    apply lstrip_fixed in Hi as [Hnil|(c' & s' & E' & Hc')]; [done|].
    simpl in E'. by injection E' as -> _. }
  unfold rstrip. by rewrite reverse_involutive, lstrip_idemp.
Qed.

Lemma has_boundary_drop_prefix a u : has_boundary (a ++ u) = false → has_boundary u = false.
Proof.
  induction a as [|x a IH]; [done|]. destruct a as [|y a].
  - destruct u as [|z u]; [done|]. simpl. by intros [_ ?]%orb_false_elim.
  - change ((x :: y :: a) ++ u) with (x :: y :: a ++ u).
    change (has_boundary (x :: y :: a ++ u))
      with (Re.is_terminator x && isspace y || has_boundary ((y :: a) ++ u)).
    intros [_ ?]%orb_false_elim. by apply IH.
Qed.

Lemma has_boundary_drop_suffix u b : has_boundary (u ++ b) = false → has_boundary u = false.
Proof.
  induction u as [|x u IH]; [done|]. destruct u as [|y u]; [done|].
  change ((x :: y :: u) ++ b) with (x :: y :: u ++ b).
  change (has_boundary (x :: y :: u ++ b))
    with (Re.is_terminator x && isspace y || has_boundary ((y :: u) ++ b)).
  change (has_boundary (x :: y :: u))
    with (Re.is_terminator x && isspace y || has_boundary (y :: u)).
  intros [-> H]%orb_false_elim. by rewrite IH.
Qed.

Lemma segments_pieces text pieces :
  segments text pieces →
  Forall (λ p, has_boundary p = false ∧ ∃ a b, text = a ++ p ++ b) pieces.
Proof.
  induction 1 as [p Hp|p gap rest pieces Hp Hlook Hne Hgap Hrest _ IH].
  - constructor; [|constructor]. split; [done|]. exists [], []. by rewrite app_nil_r.
  - constructor.
    + split; [done|]. by exists [], (gap ++ rest).
    + eapply Forall_impl; [exact IH|]. intros q [Hq (a & b & ->)]. split; [done|].
      exists (p ++ gap ++ a), b. by rewrite <- !app_assoc.
Qed.

Lemma extracted_from_piece text u :
  u ∈ extract_sentences_from_text text →
  ∃ p, p ∈ Re.split_sentences text ∧ u = strip p ∧ 10 < length u.
Proof.
  rewrite extract_sentences_filter. intros (p & -> & Hp)%list_elem_of_fmap.
  apply list_elem_of_filter in Hp as [Hlen Hp]. by exists p.
Qed.

End Units.

(** X1. Every unit the segmentation returns is trimmed (stripping it
    again changes nothing), has at least 11 characters, holds no sentence
    boundary inside (no terminator followed by whitespace), and occurs in
    the text as it stands: nothing is rewritten or invented. *)
Theorem extracted_units_wellformed (text : pystr) :
  Forall (λ u, strip u = u
               ∧ 11 ≤ length u
               ∧ has_boundary u = false
               ∧ ∃ before after, text = before ++ u ++ after)
         (extract_sentences_from_text text).
Proof.
  apply Forall_forall. intros u (p & Hp & -> & Hlen)%extracted_from_piece.
  pose proof (segments_pieces text _ (split_sentences_segments text)) as Hall.
  rewrite Forall_forall in Hall. destruct (Hall p Hp) as [Hb (a & b & ->)].
  destruct (strip_infix p) as (a' & b' & Ep).
  split; [apply strip_strip|]. split; [lia|]. split.
  - rewrite Ep in Hb. apply has_boundary_drop_prefix in Hb.
    by apply has_boundary_drop_suffix in Hb.
  - exists (a ++ a'), (b' ++ b). rewrite Ep at 1. by rewrite <- !app_assoc.
Qed.

(** ** The text of an XML document *)
Section XmlText.

Lemma sub_tags_go_no_close st s :
  ">"%char ∉ s → ">"%char ∉ Re.sub_tags_go st s.
Proof.
  revert st. induction s as [|c s IH]; intros st Hs; [done|].
  apply not_elem_of_cons in Hs as [Hc Hs]. simpl.
  destruct st.
  - destruct (Ascii.eqb c ">"); by apply IH.
  - destruct (Ascii.eqb c "<"); [destruct (Re.tag_follows s)|];
      apply not_elem_of_cons; (split; [done || by_computation | by apply IH]).
Qed.

Lemma sub_spaces_go_no_close st s :
  ">"%char ∉ s → ">"%char ∉ Re.sub_spaces_go st s.
Proof.
  revert st. induction s as [|c s IH]; intros st Hs; [done|].
  apply not_elem_of_cons in Hs as [Hc Hs]. simpl.
  destruct (isspace c); [destruct st|]; try by apply IH.
  - apply not_elem_of_cons. split; [by_computation | by apply IH].
  - apply not_elem_of_cons. split; [done | by apply IH].
Qed.

Lemma tag_follows_false s :
  Re.tag_follows s = false ↔
  s = [] ∨ (∃ r, s = ">"%char :: r) ∨ (∃ c r, s = c :: r ∧ ">"%char ∉ r).
Proof.
  destruct s as [|c r]; [split; [by left | done]|]. simpl. split.
  - intros [Hc|Hr]%andb_false_iff.
    + right. left. exists r. apply negb_false_iff in Hc.
      by apply Ascii.eqb_eq in Hc as ->.
    + right. right. exists c, r. split; [done|].
      intros Hin. apply not_true_iff_false in Hr. apply Hr.
      apply existsb_exists. exists ">"%char. split; [by apply list_elem_of_In | done].
  - intros [?|[[r' E]|(c' & r' & E & Hr)]]; [done|..].
    + injection E as -> _. done.
    + injection E as -> ->. apply andb_false_iff. right.
      apply not_true_iff_false. intros (x & Hx & Ex)%existsb_exists.
      apply Ascii.eqb_eq in Ex as ->. by apply list_elem_of_In in Hx.
Qed.

Lemma tag_free_cons c s :
  tag_free s → (c = "<"%char → Re.tag_follows s = false) → tag_free (c :: s).
Proof.
  intros Hs Hc [|x a] b E; simpl in E; injection E as -> ->; [by apply Hc | by eapply Hs].
Qed.

Lemma tag_free_tail c s : tag_free (c :: s) → tag_free s.
Proof. intros H a b ->. by apply (H (c :: a) b). Qed.

Lemma tag_free_infix a u b : tag_free (a ++ u ++ b) → tag_free u.
Proof.
  intros H x y ->. specialize (H (a ++ x) (y ++ b)).
  rewrite <- !app_assoc in H. specialize (H eq_refl).
  apply tag_follows_false in H. apply tag_follows_false.
  destruct y as [|c r]; [by left|]. right.
  destruct H as [?|[[r' E]|(c' & r' & E & Hr)]]; [done|..]; simpl in E.
  - injection E as -> _. left. by exists r.
  - injection E as <- <-. right. exists c, r. split; [done|].
    rewrite not_elem_of_app in Hr. by destruct Hr.
Qed.

Lemma sub_tags_go_tag_free st s : tag_free (Re.sub_tags_go st s).
Proof.
  revert st. induction s as [|c s IH]; intros st; [by intros [|??] ? ?|].
  simpl. destruct st.
  - destruct (Ascii.eqb c ">"); apply IH.
  - destruct (Ascii.eqb_spec c "<") as [->|Hne].
    + destruct (Re.tag_follows s) eqn:Hs.
      * apply tag_free_cons; [apply IH | by_computation].
      * apply tag_free_cons; [apply IH|]. intros _.
        apply tag_follows_false in Hs. apply tag_follows_false.
        destruct Hs as [->|[[r ->]|(x & r & -> & Hr)]]; [by left|..].
        -- right. left. simpl. eexists. reflexivity.
        -- destruct (Ascii.eqb_spec x ">") as [->|Hx].
           ++ right. left. simpl. eexists. reflexivity.
           ++ assert (">"%char ∉ Re.sub_tags_go false (x :: r)) as Hno.
              { apply sub_tags_go_no_close. by apply not_elem_of_cons. }
              destruct (Re.sub_tags_go false (x :: r)) as [|y o]; [by left|].
              right. right. exists y, o. split; [done|].
              by apply not_elem_of_cons in Hno as [_ ?].
    + apply tag_free_cons; [apply IH | done].
Qed.

Lemma sub_spaces_go_tag_free st s : tag_free s → tag_free (Re.sub_spaces_go st s).
Proof.
  revert st. induction s as [|c s IH]; intros st Hs; [done|].
  pose proof (tag_free_tail c s Hs) as Hs'. simpl.
  destruct (isspace c) eqn:Ec; [destruct st|].
  - by apply IH.
  - apply tag_free_cons; [by apply IH | by_computation].
  - apply tag_free_cons; [by apply IH|]. intros ->.
    pose proof (Hs [] s eq_refl) as Ht.
    apply tag_follows_false in Ht. apply tag_follows_false.
    destruct Ht as [->|[[r ->]|(x & r & -> & Hr)]]; [by left|..].
    + right. left. simpl. eexists. reflexivity.
    + destruct (Ascii.eqb_spec x ">") as [->|Hx].
      * right. left. simpl. eexists. reflexivity.
      * assert (">"%char ∉ Re.sub_spaces_go false (x :: r)) as Hno.
        { apply sub_spaces_go_no_close. by apply not_elem_of_cons. }
        destruct (Re.sub_spaces_go false (x :: r)) as [|y o]; [by left|].
        right. right. exists y, o. split; [done|].
        by apply not_elem_of_cons in Hno as [_ ?].
Qed.

Lemma pi_body_close q s : Re.pi_body q s = true → ">"%char ∈ s.
Proof.
  revert q. induction s as [|c s IH]; intros q; [done|]. simpl.
  destruct (Ascii.eqb_spec c ">") as [->|_]; [intros _; left|].
  intros H. right. by eapply IH.
Qed.

Lemma sub_pi_tag_free s : tag_free s → Re.sub_pi_go false s = s.
Proof.
  induction s as [|c s IH]; intros Hs; [done|]. simpl.
  rewrite IH by (by eapply tag_free_tail).
  destruct (Ascii.eqb_spec c "<") as [->|_]; [|done].
  destruct (Re.pi_follows s) eqn:Hpi; [|done]. exfalso.
  pose proof (Hs [] s eq_refl) as Ht.
  destruct s as [|x r]; [done|]. simpl in Hpi, Ht.
  apply andb_true_iff in Hpi as [Hx Hbody]. apply Ascii.eqb_eq in Hx as ->.
  apply pi_body_close in Hbody. simpl in Ht.
  apply not_true_iff_false in Ht. apply Ht.
  apply existsb_exists. exists ">"%char. split; [by apply list_elem_of_In | done].
Qed.

Lemma stripped_tags_tag_free content :
  tag_free (strip (Re.sub_spaces (Re.sub_tags content))).
Proof.
  destruct (strip_infix (Re.sub_spaces (Re.sub_tags content))) as (a & b & E).
  apply (tag_free_infix a _ b). rewrite <- E.
  apply sub_spaces_go_tag_free, sub_tags_go_tag_free.
Qed.

End XmlText.

(** X2. In [read_xml_sentences] the third substitution, meant to remove
    XML declarations and processing instructions, never changes the text:
    the tag substitution before it has already replaced them.  The
    stripped text holds no tag, that is no ["<"], a non-empty body without
    [">"], and a [">"]. *)
Theorem xml_plain_text_has_no_tag (content : pystr) :
  xml_plain_text content = strip (Re.sub_spaces (Re.sub_tags content))
  ∧ ¬ ∃ before body after,
        body ≠ [] ∧ (">"%char ∉ body)
        ∧ xml_plain_text content = before ++ "<"%char :: body ++ ">"%char :: after.
Proof.
  assert (xml_plain_text content = strip (Re.sub_spaces (Re.sub_tags content))) as E.
  { unfold xml_plain_text. apply sub_pi_tag_free, stripped_tags_tag_free. }
  split; [done|]. rewrite E.
  intros (before & body & after & Hne & Hbody & Et).
  pose proof (stripped_tags_tag_free content before _ Et) as Ht.
  destruct body as [|c r]; [done|]. apply not_elem_of_cons in Hbody as [Hc Hr].
  simpl in Ht. apply andb_false_iff in Ht as [Ht|Ht].
  - apply negb_false_iff, Ascii.eqb_eq in Ht. done.
  - apply not_true_iff_false in Ht. apply Ht.
    apply existsb_exists. exists ">"%char. split; [|done].
    apply list_elem_of_In, elem_of_app. right. left.
Qed.

(** ** Whitespace of the XML text *)
Section XmlSpaces.

Lemma sub_spaces_go_plain st s :
  Forall (λ c, isspace c = true → c = " "%char) (Re.sub_spaces_go st s).
Proof.
  revert st. induction s as [|c s IH]; intros st; [constructor|]. simpl.
  destruct (isspace c) eqn:Ec; [destruct st|]; try apply IH.
  - constructor; [done | apply IH].
  - constructor; [by rewrite Ec | apply IH].
Qed.

Lemma sub_spaces_go_head s :
  match Re.sub_spaces_go true s with
  | [] => True
  | c :: _ => isspace c = false
  end.
Proof.
  induction s as [|c s IH]; [done|]. simpl. by destruct (isspace c) eqn:Ec.
Qed.

Lemma sub_spaces_go_no_pair st s : has_space_pair (Re.sub_spaces_go st s) = false.
Proof.
  revert st. induction s as [|c s IH]; intros st; [done|]. simpl.
  destruct (isspace c) eqn:Ec; [destruct st|].
  - apply IH.
  - pose proof (sub_spaces_go_head s) as Hh. specialize (IH true).
    destruct (Re.sub_spaces_go true s) as [|y o]; [done|].
    change (has_space_pair (" "%char :: y :: o))
      with (isspace " " && isspace y || has_space_pair (y :: o)).
    by rewrite Hh, IH.
  - specialize (IH false). destruct (Re.sub_spaces_go false s) as [|y o]; [done|].
    change (has_space_pair (c :: y :: o))
      with (isspace c && isspace y || has_space_pair (y :: o)).
    by rewrite Ec, IH.
Qed.

Lemma has_space_pair_infix a u b :
  has_space_pair (a ++ u ++ b) = false → has_space_pair u = false.
Proof.
  intros H.
  assert (has_space_pair (u ++ b) = false) as H'.
  { clear -H. induction a as [|x a IH]; [done|]. destruct a as [|y a].
    - simpl in H. destruct (u ++ b) as [|z r]; [done|].
      by apply orb_false_elim in H as [_ ?].
    - change ((x :: y :: a) ++ u ++ b) with (x :: (y :: a) ++ u ++ b) in H.
      change (has_space_pair (x :: (y :: a) ++ u ++ b))
        with (isspace x && isspace y || has_space_pair ((y :: a) ++ u ++ b)) in H.
      apply orb_false_elim in H as [_ ?]. by apply IH. }
  clear H. induction u as [|x u IH]; [done|]. destruct u as [|y u]; [done|].
  change (has_space_pair ((x :: y :: u) ++ b))
    with (isspace x && isspace y || has_space_pair ((y :: u) ++ b)) in H'.
  change (has_space_pair (x :: y :: u))
    with (isspace x && isspace y || has_space_pair (y :: u)).
  apply orb_false_elim in H' as [-> H']. by rewrite IH.
Qed.

Lemma sub_tags_go_length st s : length (Re.sub_tags_go st s) ≤ length s.
Proof.
  revert st. induction s as [|c s IH]; intros st; [done|]. simpl.
  destruct st; [destruct (Ascii.eqb c ">")|
                destruct (Ascii.eqb c "<"); [destruct (Re.tag_follows s)|]];
    simpl; first [specialize (IH true); lia | specialize (IH false); lia].
Qed.

Lemma sub_spaces_go_length st s : length (Re.sub_spaces_go st s) ≤ length s.
Proof.
  revert st. induction s as [|c s IH]; intros st; [done|]. simpl.
  destruct (isspace c); [destruct st|];
    simpl; first [specialize (IH true); lia | specialize (IH false); lia].
Qed.

Lemma strip_length s : length (strip s) ≤ length s.
Proof.
  destruct (strip_infix s) as (a & b & E). rewrite E at 2.
  rewrite !length_app. lia.
Qed.

Lemma xml_plain_text_stripped content :
  xml_plain_text content = strip (Re.sub_spaces (Re.sub_tags content)).
Proof. unfold xml_plain_text. apply sub_pi_tag_free, stripped_tags_tag_free. Qed.

Lemma strip_fixed_lstrip s : strip s = s → lstrip s = s.
Proof.
  intros E. destruct (rstrip_prefix (lstrip s)) as [tail Ht].
  fold (strip s) in Ht. rewrite E in Ht.
  pose proof (lstrip_length s) as Hlen. rewrite Ht in Hlen at 1.
  rewrite length_app in Hlen.
  destruct tail; [by rewrite app_nil_r in Ht | simpl in Hlen; lia].
Qed.

Lemma rstrip_snoc s c : isspace c = false → rstrip (s ++ [c]) = s ++ [c].
Proof.
  intros Hc. unfold rstrip. rewrite reverse_snoc. simpl. rewrite Hc.
  by rewrite reverse_cons, reverse_involutive.
Qed.

Lemma has_space_pair_app a c r :
  isspace c = false →
  has_space_pair (a ++ c :: r) = has_space_pair a || has_space_pair (c :: r).
Proof.
  intros Hc. induction a as [|x a IH]; [done|]. destruct a as [|y a].
  - change (has_space_pair ([x] ++ c :: r))
      with (isspace x && isspace c || has_space_pair (c :: r)).
    by rewrite Hc, andb_false_r.
  - change (has_space_pair ((x :: y :: a) ++ c :: r))
      with (isspace x && isspace y || has_space_pair ((y :: a) ++ c :: r)).
    change (has_space_pair (x :: y :: a))
      with (isspace x && isspace y || has_space_pair (y :: a)).
    by rewrite IH, orb_assoc.
Qed.

Lemma XML_TEXT_LIMIT_pos : 0 < XML_TEXT_LIMIT.
Proof. apply Nat.ltb_lt. vm_compute. reflexivity. Qed.

Lemma xml_limit_text_cases text :
  (length text ≤ XML_TEXT_LIMIT ∧ xml_limit_text text = text)
  ∨ (XML_TEXT_LIMIT < length text
     ∧ xml_limit_text text = take XML_TEXT_LIMIT text ++ TEXT_TRUNCATED).
Proof.
  unfold xml_limit_text. destruct (XML_TEXT_LIMIT <? length text) eqn:E.
  - right. by apply Nat.ltb_lt in E.
  - left. by apply Nat.ltb_ge in E.
Qed.

(** Cutting a normalised text at the limit and appending the marker
    leaves it normalised: the marker starts with a full stop and ends with
    a bracket. *)
Lemma xml_limit_text_normalized text :
  strip text = text →
  Forall (λ c, isspace c = true → c = " "%char) text →
  has_space_pair text = false →
  strip (xml_limit_text text) = xml_limit_text text
  ∧ Forall (λ c, isspace c = true → c = " "%char) (xml_limit_text text)
  ∧ has_space_pair (xml_limit_text text) = false.
Proof.
  intros Hstrip Hplain Hpair.
  destruct (xml_limit_text_cases text) as [[_ ->]|[Hlt ->]]; [done|].
  pose proof XML_TEXT_LIMIT_pos as Hpos.
  remember XML_TEXT_LIMIT as limit eqn:El. clear El.
  destruct limit as [|n]; [lia|].
  destruct text as [|c text']; [simpl in Hlt; lia|].
  apply strip_fixed_lstrip, lstrip_fixed in Hstrip as [?|(c' & s' & [= <- <-] & Hc)]; [done|].
  assert (has_space_pair (take (S n) (c :: text')) = false) as Hcut.
  { apply (has_space_pair_infix [] _ (drop (S n) (c :: text'))).
    by rewrite app_nil_l, take_drop. }
  split; [|split].
  - change TEXT_TRUNCATED with (lit "... [truncated for performance" ++ ["]"%char]).
    rewrite app_assoc. unfold strip.
    assert (lstrip ((take (S n) (c :: text') ++ lit "... [truncated for performance")
                    ++ ["]"%char])
            = (take (S n) (c :: text') ++ lit "... [truncated for performance")
              ++ ["]"%char]) as ->.
    { cbn [take app lstrip]. by rewrite Hc. }
    by apply rstrip_snoc.
  - apply Forall_app. split; [by apply Forall_take|].
    by_computation.
  - change TEXT_TRUNCATED with ("."%char :: lit ".. [truncated for performance]").
    rewrite has_space_pair_app by done. by rewrite Hcut.
Qed.

End XmlSpaces.

(** X3. The text that [read_xml_sentences] obtains by its three
    substitutions is normalised: it neither starts nor ends with
    whitespace, its only whitespace character is the plain space, no two
    spaces are adjacent, and it is no longer than the file content.  The
    text that is then segmented is that text, or, when it has more than
    50,000 characters, its first 50,000 characters followed by the
    31-character marker; it is normalised in the same three ways and
    has at most 50,031 characters. *)
Theorem xml_plain_text_normalized (content : pystr) :
  let text := xml_plain_text content in
  let segmented := xml_limit_text text in
  (strip text = text
   ∧ Forall (λ c, isspace c = true → c = " "%char) text
   ∧ has_space_pair text = false
   ∧ length text ≤ length content)
  ∧ (length text ≤ XML_TEXT_LIMIT → segmented = text)
  ∧ (XML_TEXT_LIMIT < length text → segmented = take XML_TEXT_LIMIT text ++ TEXT_TRUNCATED)
  ∧ strip segmented = segmented
  ∧ Forall (λ c, isspace c = true → c = " "%char) segmented
  ∧ has_space_pair segmented = false
  ∧ length segmented ≤ XML_TEXT_LIMIT + 31
  ∧ length segmented ≤ length content + 31.
Proof.
  intros text segmented.
  assert (strip text = text
          ∧ Forall (λ c, isspace c = true → c = " "%char) text
          ∧ has_space_pair text = false
          ∧ length text ≤ length content) as Htext.
  { subst text. rewrite xml_plain_text_stripped.
    destruct (strip_infix (Re.sub_spaces (Re.sub_tags content))) as (a & b & E).
    split; [apply strip_strip|]. split; [|split].
    - pose proof (sub_spaces_go_plain false (Re.sub_tags content)) as H.
      fold (Re.sub_spaces (Re.sub_tags content)) in H. rewrite E in H.
      by apply Forall_app in H as [_ [H _]%Forall_app].
    - apply (has_space_pair_infix a _ b). rewrite <- E. apply sub_spaces_go_no_pair.
    - etrans; [apply strip_length|]. etrans; [apply sub_spaces_go_length|].
      apply sub_tags_go_length. }
  split; [exact Htext|].
  destruct Htext as (Hstrip & Hplain & Hpair & Hlen).
  destruct (xml_limit_text_normalized text Hstrip Hplain Hpair) as (Hs & Hp & Hh).
  pose proof (xml_limit_text_cases text) as [[Hle E]|[Hlt E]]; fold segmented in E.
  - split_and!; try done.
    + intros Hlt. lia.
    + rewrite E. lia.
    + rewrite E. lia.
  - assert (length segmented = XML_TEXT_LIMIT + 31) as El.
    { rewrite E, length_app, length_take_le by lia. done. }
    split_and!; try done.
    + intros Hle. lia.
    + lia.
    + lia.
Qed.

(** ** Runs *)
Section Runs.

Variable converse : nat → request → outcome.
Variable soup_get_text : pystr → outcome.

Lemma read_file_sentences_silent file_path w :
  (read_file_sentences soup_get_text file_path w).1 ≠ [] →
  stdout (read_file_sentences soup_get_text file_path w).2 = stdout w.
Proof.
  unfold read_file_sentences, read_xml_sentences, read_html_sentences,
    read_txt_sentences, read_text, print, mbind, M_bind, mret, M_ret.
  repeat case_bool_decide; simpl;
    destruct (fs w !! file_path) as [[content|e]|]; simpl; try done;
    destruct (soup_get_text content); done.
Qed.

Lemma read_file_sentences_prints file_path w :
  ∃ msgs, stdout (read_file_sentences soup_get_text file_path w).2 = stdout w ++ msgs
          ∧ length msgs ≤ 1.
Proof.
  unfold read_file_sentences, read_xml_sentences, read_html_sentences,
    read_txt_sentences, read_text, print, mbind, M_bind, mret, M_ret.
  repeat case_bool_decide; simpl;
    destruct (fs w !! file_path) as [[content|e]|]; simpl;
    try destruct (soup_get_text content); simpl;
    first [ by (exists []; rewrite app_nil_r; split; [done | simpl; lia])
          | by (eexists [_]; split; [done | simpl; lia]) ].
Qed.

Lemma loading_frame file_path w :
  fs (loading soup_get_text file_path w).2 = fs w
  ∧ write_error (loading soup_get_text file_path w).2 = write_error w
  ∧ calls (loading soup_get_text file_path w).2 = calls w.
Proof.
  exact (read_file_sentences_frame soup_get_text file_path
           (World (fs w) (write_error w) ((stdout w ++ [MsgStarting]) ++ [MsgFile file_path])
              (calls w))).
Qed.

Lemma make_chunks_single sentences :
  sentences ≠ [] → length sentences ≤ CHUNK_SIZE →
  make_chunks sentences CHUNK_SIZE = [sentences].
Proof.
  intros Hne Hlen. unfold CHUNK_SIZE in *.
  rewrite make_chunks_cons by (done || lia).
  rewrite take_ge, drop_ge by lia. by rewrite make_chunks_nil.
Qed.

Lemma xml_number_sentences_length raw :
  length (xml_number_sentences raw) ≤ 201
  ∧ (length raw ≤ 200 → length (xml_number_sentences raw) = length raw).
Proof.
  destruct (decide (XML_SENTENCE_LIMIT < length raw)) as [Hlt|Hge].
  - rewrite xml_number_sentences_over by done. unfold XML_SENTENCE_LIMIT in *.
    rewrite length_app, length_imap, length_take_le by lia. simpl. lia.
  - rewrite xml_number_sentences_under by lia. unfold XML_SENTENCE_LIMIT in *.
    rewrite length_imap. lia.
Qed.

Lemma read_xml_sentences_length path w : length (read_xml_sentences path w).1 ≤ 201.
Proof.
  unfold read_xml_sentences, read_text, print, mbind, M_bind, mret, M_ret.
  destruct (fs w !! path) as [[content|e]|]; simpl; try lia.
  apply xml_number_sentences_length.
Qed.

Lemma main_shape argv w :
  (∃ prog file_path, argv = [prog; file_path]) ∨
  main converse soup_get_text argv w
  = (Exit0, World (fs w) (write_error w) (stdout w ++ [MsgUsage]) (calls w)).
Proof.
  destruct argv as [|prog [|file_path [|x argv]]]; [by right | by right | | by right].
  left. by exists prog, file_path.
Qed.

Lemma main_not_found prog file_path w :
  fs w !! file_path = None →
  main converse soup_get_text [prog; file_path] w
  = (Exit0, World (fs w) (write_error w) (stdout w ++ [MsgFileNotFound file_path]) (calls w)).
Proof.
  intros Hnone. unfold main, path_exists. unfold mbind at 1. unfold M_bind at 1.
  rewrite bool_decide_eq_false_2; [done|]. rewrite Hnone. by intros [? ?].
Qed.

End Runs.

(** X4. An XML document costs at most two completion calls whatever
    its size: the loader returns at most 201 units, so a document with any
    unit is sent as the single chunk "1/1", followed by the fusion call. *)
Theorem xml_run_makes_two_calls
    (converse : nat → request → outcome) (soup_get_text : pystr → outcome)
    (prog file_path : pystr) (w : world) :
  is_Some (fs w !! file_path) →
  file_ext file_path = lit "xml" →
  let units := (loading soup_get_text file_path w).1 in
  let run := main converse soup_get_text [prog; file_path] w in
  length units ≤ 201
  ∧ (units = [] → calls run.2 = calls w)
  ∧ (units ≠ [] →
       calls run.2
       = calls w
         ++ [chunk_request units 1 1;
             fusion_request
               [chunk_label 1 (chunk_text converse (length (calls w)) units 1 1)]]).
Proof.
  intros Hfile Hext units run.
  assert (length units ≤ 201) as Hlen.
  { subst units. unfold loading, read_file_sentences. rewrite Hext.
    rewrite bool_decide_eq_true_2 by done. apply read_xml_sentences_length. }
  split; [done|]. split.
  - intros Hempty. subst run.
    rewrite (main_no_sentences converse soup_get_text prog file_path w Hfile Hempty).
    apply (loading_frame soup_get_text).
  - intros Hne. subst run.
    rewrite (main_run converse soup_get_text prog file_path w Hfile Hne).
    fold units. rewrite (make_chunks_single units Hne) by (unfold CHUNK_SIZE; lia).
    destruct (write_error w (output_file_of file_path)); cbn [snd calls];
      unfold run_requests, run_results, run_texts; simpl; by rewrite Nat.add_0_r.
Qed.

(** The XML sample costs two calls. *)
Lemma xml_run_makes_two_calls_witness :
  let w := Sample.world_with (lit "small.xml") Sample.small_xml in
  let units := (loading Sample.soup_get_text (lit "small.xml") w).1 in
  let run :=
    main Sample.converse Sample.soup_get_text [lit "chunked_analyzer.py"; lit "small.xml"] w in
  length units ≤ 201
  ∧ (units = [] → calls run.2 = calls w)
  ∧ (units ≠ [] →
       calls run.2
       = calls w
         ++ [chunk_request units 1 1;
             fusion_request
               [chunk_label 1 (chunk_text Sample.converse (length (calls w)) units 1 1)]]).
Proof.
  apply (xml_run_makes_two_calls Sample.converse Sample.soup_get_text
           (lit "chunked_analyzer.py") (lit "small.xml")
           (Sample.world_with (lit "small.xml") Sample.small_xml)).
  - eexists. apply world_with_lookup.
  - vm_compute. reflexivity.
Defined.

(** X6. When the artifact cannot be written, the analysis has already
    been paid for and shown: all completion calls were made and the report
    was printed; the process ends with status 1 and no file has changed. *)
Theorem sink_failure_after_analysis
    (converse : nat → request → outcome) (soup_get_text : pystr → outcome)
    (prog file_path : pystr) (w : world) (e : pystr) :
  is_Some (fs w !! file_path) →
  (loading soup_get_text file_path w).1 ≠ [] →
  write_error w (output_file_of file_path) = Some e →
  let chunks := make_chunks (loading soup_get_text file_path w).1 CHUNK_SIZE in
  let run := main converse soup_get_text [prog; file_path] w in
  run.1 = Exit1
  ∧ fs run.2 = fs w
  ∧ length (calls run.2) = length (calls w) + length chunks + 1
  ∧ ∃ final_report,
      stdout run.2
      = stdout w ++ [MsgStarting; MsgFile file_path; MsgRule; MsgTitle; MsgRule;
                     MsgReport final_report; MsgRule].
Proof.
  intros Hfile Hne Hwrite chunks run. subst run.
  rewrite (main_run converse soup_get_text prog file_path w Hfile Hne).
  fold chunks. rewrite Hwrite. cbn [fst snd fs stdout calls].
  split; [done|]. split; [done|]. split.
  - rewrite !length_app. unfold run_requests. rewrite length_imap. simpl. lia.
  - eexists. unfold loading. rewrite read_file_sentences_silent by done.
    cbn [stdout]. by rewrite <- !app_assoc.
Qed.

(** A read-only working directory: the run on the one-sentence note. *)
Lemma sink_failure_after_analysis_witness :
  let w := World {[ lit "note.txt" := Text Sample.note ]}
                 (λ _, Some (lit "[Errno 13] Permission denied")) [] [] in
  let chunks := make_chunks (loading Sample.soup_get_text (lit "note.txt") w).1 CHUNK_SIZE in
  let run :=
    main Sample.converse Sample.soup_get_text [lit "chunked_analyzer.py"; lit "note.txt"] w in
  run.1 = Exit1
  ∧ fs run.2 = fs w
  ∧ length (calls run.2) = length (calls w) + length chunks + 1
  ∧ ∃ final_report,
      stdout run.2
      = stdout w ++ [MsgStarting; MsgFile (lit "note.txt"); MsgRule; MsgTitle; MsgRule;
                     MsgReport final_report; MsgRule].
Proof.
  apply (sink_failure_after_analysis Sample.converse Sample.soup_get_text
           (lit "chunked_analyzer.py") (lit "note.txt")
           (World {[ lit "note.txt" := Text Sample.note ]}
                  (λ _, Some (lit "[Errno 13] Permission denied")) [] [])
           (lit "[Errno 13] Permission denied")).
  - eexists. apply lookup_singleton_eq.
  - by_computation.
  - reflexivity.
Defined.

(** X7. A complete run on a document of N units makes exactly
    ceil(N/400) + 1 completion calls, all to the same model: one per
    chunk in order, with a budget of 1500 tokens and a prompt built from
    that chunk, its ordinal and the chunk count, then the fusion call with
    a budget of 3000 tokens over one entry per chunk.  It prints seven
    lines, the report being the sixth. *)
Theorem analysis_cost
    (converse : nat → request → outcome) (soup_get_text : pystr → outcome)
    (prog file_path : pystr) (w : world) :
  is_Some (fs w !! file_path) →
  (loading soup_get_text file_path w).1 ≠ [] →
  let units := (loading soup_get_text file_path w).1 in
  let chunks := make_chunks units CHUNK_SIZE in
  let run := main converse soup_get_text [prog; file_path] w in
  ∃ new results final_report,
    calls run.2 = calls w ++ new
    ∧ length new = (length units + 399) / 400 + 1
    ∧ Forall (λ req, modelId req = MODEL_ID) new
    ∧ (∀ k chunk, chunks !! k = Some chunk →
         new !! k
         = Some (Request MODEL_ID (chunk_prompt chunk (k + 1) (length chunks)) 1500))
    ∧ last new = Some (Request MODEL_ID (fusion_prompt results) 3000)
    ∧ length results = length chunks
    ∧ stdout run.2
      = stdout w ++ [MsgStarting; MsgFile file_path; MsgRule; MsgTitle; MsgRule;
                     MsgReport final_report; MsgRule].
Proof.
  intros Hfile Hne units chunks run.
  exists (run_requests chunks ++ [fusion_request (run_results converse (length (calls w)) chunks)]),
    (run_results converse (length (calls w)) chunks),
    (fusion_text converse (length (calls w) + length chunks)
       (run_results converse (length (calls w)) chunks)).
  assert (length (run_requests chunks) = length chunks) as Hreq
    by (unfold run_requests; by rewrite length_imap).
  assert (calls run.2
          = calls w ++ run_requests chunks
            ++ [fusion_request (run_results converse (length (calls w)) chunks)]
          ∧ stdout run.2
            = stdout w ++ [MsgStarting; MsgFile file_path; MsgRule; MsgTitle; MsgRule;
                 MsgReport (fusion_text converse (length (calls w) + length chunks)
                              (run_results converse (length (calls w)) chunks));
                 MsgRule]) as [Hcalls Hout].
  { subst run. rewrite (main_run converse soup_get_text prog file_path w Hfile Hne).
    fold units chunks.
    destruct (write_error w (output_file_of file_path)); cbn [snd calls stdout];
      (split; [done|]); unfold units, loading;
      rewrite read_file_sentences_silent by done; cbn [stdout];
      by rewrite <- !app_assoc. }
  split; [done|]. split; [|split; [|split; [|split; [|split; [|done]]]]].
  - rewrite length_app, Hreq. subst chunks. unfold CHUNK_SIZE.
    rewrite make_chunks_length by lia. simpl. lia.
  - apply Forall_app. split; [|by repeat constructor].
    apply Forall_forall. intros req Hin. unfold run_requests in Hin.
    apply elem_of_lookup_imap_1 in Hin as (k & chunk & -> & _). done.
  - intros k chunk Hk. rewrite lookup_app_l by (rewrite Hreq; by eapply lookup_lt_Some).
    unfold run_requests. rewrite list_lookup_imap, Hk. done.
  - by rewrite last_snoc.
  - unfold run_results, run_texts. by rewrite !length_imap.
Qed.

(** The sample run: three chunk calls and the fusion call. *)
Lemma analysis_cost_witness :
  let w := Sample.world_with (lit "bill.txt") Sample.document in
  let units := (loading Sample.soup_get_text (lit "bill.txt") w).1 in
  let chunks := make_chunks units CHUNK_SIZE in
  let run :=
    main Sample.converse Sample.soup_get_text [lit "chunked_analyzer.py"; lit "bill.txt"] w in
  ∃ new results final_report,
    calls run.2 = calls w ++ new
    ∧ length new = (length units + 399) / 400 + 1
    ∧ Forall (λ req, modelId req = MODEL_ID) new
    ∧ (∀ k chunk, chunks !! k = Some chunk →
         new !! k
         = Some (Request MODEL_ID (chunk_prompt chunk (k + 1) (length chunks)) 1500))
    ∧ last new = Some (Request MODEL_ID (fusion_prompt results) 3000)
    ∧ length results = length chunks
    ∧ stdout run.2
      = stdout w ++ [MsgStarting; MsgFile (lit "bill.txt"); MsgRule; MsgTitle; MsgRule;
                     MsgReport final_report; MsgRule].
Proof.
  apply (analysis_cost Sample.converse Sample.soup_get_text
           (lit "chunked_analyzer.py") (lit "bill.txt")
           (Sample.world_with (lit "bill.txt") Sample.document)).
  - eexists. apply world_with_lookup.
  - by_computation.
Defined.

(** X8. What is asked about the chunks does not depend on what the
    service answers: two runs on the same document with different
    services send the same chunk requests, in the same order, and differ
    at most in the fusion request. *)
Theorem chunk_requests_ignore_answers
    (converse1 converse2 : nat → request → outcome) (soup_get_text : pystr → outcome)
    (prog file_path : pystr) (w : world) :
  is_Some (fs w !! file_path) →
  (loading soup_get_text file_path w).1 ≠ [] →
  let chunks := make_chunks (loading soup_get_text file_path w).1 CHUNK_SIZE in
  let run1 := main converse1 soup_get_text [prog; file_path] w in
  let run2 := main converse2 soup_get_text [prog; file_path] w in
  ∃ requests fusion1 fusion2,
    length requests = length chunks
    ∧ calls run1.2 = calls w ++ requests ++ [fusion1]
    ∧ calls run2.2 = calls w ++ requests ++ [fusion2].
Proof.
  intros Hfile Hne chunks run1 run2.
  exists (run_requests chunks),
    (fusion_request (run_results converse1 (length (calls w)) chunks)),
    (fusion_request (run_results converse2 (length (calls w)) chunks)).
  split; [unfold run_requests; by rewrite length_imap|].
  subst run1 run2.
  rewrite (main_run converse1 soup_get_text prog file_path w Hfile Hne).
  rewrite (main_run converse2 soup_get_text prog file_path w Hfile Hne).
  fold chunks. by destruct (write_error w (output_file_of file_path)).
Qed.

(** The sample document under the two sample services. *)
Lemma chunk_requests_ignore_answers_witness :
  let w := Sample.world_with (lit "bill.txt") Sample.document in
  let chunks := make_chunks (loading Sample.soup_get_text (lit "bill.txt") w).1 CHUNK_SIZE in
  let run1 :=
    main Sample.converse Sample.soup_get_text [lit "chunked_analyzer.py"; lit "bill.txt"] w in
  let run2 :=
    main Sample.timeout Sample.soup_get_text [lit "chunked_analyzer.py"; lit "bill.txt"] w in
  ∃ requests fusion1 fusion2,
    length requests = length chunks
    ∧ calls run1.2 = calls w ++ requests ++ [fusion1]
    ∧ calls run2.2 = calls w ++ requests ++ [fusion2].
Proof.
  apply (chunk_requests_ignore_answers Sample.converse Sample.timeout Sample.soup_get_text
           (lit "chunked_analyzer.py") (lit "bill.txt")
           (Sample.world_with (lit "bill.txt") Sample.document)).
  - eexists. apply world_with_lookup.
  - by_computation.
Defined.

(** X9. Whatever its arguments and whatever the service answers, a run
    only adds to the console output and to the calls made, removes no
    path, and writes at most once: either the files are as before, or one
    text was written under the artifact's name, computed from the
    argument. *)
Theorem main_touches_only_the_artifact
    (converse : nat → request → outcome) (soup_get_text : pystr → outcome)
    (argv : list pystr) (w : world) :
  let w' := (main converse soup_get_text argv w).2 in
  write_error w' = write_error w
  ∧ calls w `prefix_of` calls w'
  ∧ stdout w `prefix_of` stdout w'
  ∧ dom (fs w) ⊆ dom (fs w')
  ∧ (fs w' = fs w
     ∨ ∃ prog file_path final_report,
         argv = [prog; file_path]
         ∧ fs w' = <[output_file_of file_path := Text final_report]> (fs w)).
Proof.
  intros w'.
  destruct (main_shape converse soup_get_text argv w) as [(prog & file_path & ->)|E].
  2: { subst w'. rewrite E. cbn [snd fs write_error stdout calls].
       split; [done|]. split; [done|]. split; [by apply prefix_app_r|]. by split; [|left]. }
  destruct (decide (is_Some (fs w !! file_path))) as [Hfile|Hf%eq_None_not_Some].
  2: { subst w'. rewrite (main_not_found converse soup_get_text prog file_path w Hf).
       cbn [snd fs write_error stdout calls].
       split; [done|]. split; [done|]. split; [by apply prefix_app_r|]. by split; [|left]. }
  destruct (loading_frame soup_get_text file_path w) as (Hfs & Hwe & Hcalls).
  destruct (read_file_sentences_prints soup_get_text file_path
              (World (fs w) (write_error w) ((stdout w ++ [MsgStarting]) ++ [MsgFile file_path])
                 (calls w))) as (msgs & Hmsgs & _).
  fold (loading soup_get_text file_path w) in Hmsgs. cbn [stdout] in Hmsgs.
  destruct (decide ((loading soup_get_text file_path w).1 = [])) as [Hempty|Hne].
  - subst w'.
    rewrite (main_no_sentences converse soup_get_text prog file_path w Hfile Hempty).
    cbn [snd]. rewrite Hfs, Hwe, Hcalls, Hmsgs.
    split; [done|]. split; [done|]. split; [|by split; [|left]].
    rewrite <- !app_assoc. by apply prefix_app_r.
  - subst w'. rewrite (main_run converse soup_get_text prog file_path w Hfile Hne).
    destruct (write_error w (output_file_of file_path)) as [e|];
      cbn [snd fs write_error stdout calls]; rewrite Hmsgs;
      (split; [done|]); (split; [by apply prefix_app_r|]);
      (split; [rewrite <- !app_assoc; by apply prefix_app_r|]).
    + by split; [|left].
    + split; [rewrite dom_insert_L; set_solver|].
      right. by eexists prog, file_path, _.
Qed.

(** ** Format tags and paths *)
Section Tags.

Lemma lower_char_idemp c : lower_char (lower_char c) = lower_char c.
Proof. destruct c as [[] [] [] [] [] [] [] []]; vm_compute; reflexivity. Qed.

Lemma lower_idemp s : lower (lower s) = lower s.
Proof.
  unfold lower. rewrite <- list_fmap_compose. apply list_fmap_ext.
  intros _ c _. apply lower_char_idemp.
Qed.

Lemma last_occurrence (c : ascii) (s : pystr) :
  (c ∉ s) ∨ ∃ pre suf, s = pre ++ c :: suf ∧ (c ∉ suf).
Proof.
  destruct (rfind_spec c s) as [[? _]|(pre & suf & ? & ? & _)]; [by left|].
  right. by exists pre, suf.
Qed.

Lemma basename_suffix p : ∃ dir, p = dir ++ basename p.
Proof. exists (take (Z.to_nat (rfind "/" p + 1)) p). unfold basename. by rewrite take_drop. Qed.

End Tags.

(** X10. The format tag is decided without regard to letter case and
    is itself in lower case; it never contains a ['.']; and when the file
    name has a ['.'], the directories of the path play no part in it. *)
Theorem file_ext_ignores_case (file_path : pystr) :
  file_ext (lower file_path) = file_ext file_path
  ∧ lower (file_ext file_path) = file_ext file_path
  ∧ ("."%char ∉ file_ext file_path)
  ∧ ("."%char ∈ basename file_path → file_ext file_path = file_ext (basename file_path)).
Proof.
  split; [unfold file_ext; by rewrite lower_idemp|].
  assert (∀ p, (lower (file_ext p) = file_ext p) ∧ ("."%char ∉ file_ext p)) as Hp.
  { intros p. destruct (last_occurrence "." p) as [Hno|(pre & suf & -> & Hsuf)].
    - rewrite file_ext_dotless by done. split; [apply lower_idemp | by apply lower_no_dot].
    - rewrite file_ext_after_last_dot by done.
      split; [apply lower_idemp | by apply lower_no_dot]. }
  split; [apply Hp|]. split; [apply Hp|].
  intros Hdot. destruct (basename_suffix file_path) as [dir E].
  destruct (last_occurrence "." (basename file_path)) as [Hno|(pre & suf & Eb & Hsuf)];
    [done|].
  rewrite E at 1. rewrite Eb. rewrite app_assoc.
  by rewrite !file_ext_after_last_dot.
Qed.

(** Upper-case names and dotted directories. *)
Lemma file_ext_ignores_case_witness :
  file_ext (lower (lit "Bills.2024/Act.HTML")) = file_ext (lit "Bills.2024/Act.HTML")
  ∧ lower (file_ext (lit "Bills.2024/Act.HTML")) = file_ext (lit "Bills.2024/Act.HTML")
  ∧ ("."%char ∉ file_ext (lit "Bills.2024/Act.HTML"))
  ∧ file_ext (lit "Bills.2024/Act.HTML") = file_ext (basename (lit "Bills.2024/Act.HTML")).
Proof.
  destruct (file_ext_ignores_case (lit "Bills.2024/Act.HTML")) as (H1 & H2 & H3 & H4).
  split; [done|]. split; [done|]. split; [done|]. apply H4. by_computation.
Defined.

(** A dotted directory decides the tag of a file name without a dot. *)
Example file_ext_of_dotted_directory :
  file_ext (lit "bills.2024/act") = lit "2024/act".
Proof. vm_compute. reflexivity. Qed.

(** ** Units and chunks *)

(** X11. Unit j of the document is unit (j mod 400) of chunk
    (j div 400), and the chunks hold nothing else: looking a position up
    through the chunks is looking it up in the document. *)
Theorem unit_position_in_chunks (sentences : list pystr) (j : nat) :
  make_chunks sentences CHUNK_SIZE !! (j / 400) ≫= (λ chunk, chunk !! (j mod 400))
  = sentences !! j.
Proof.
  unfold CHUNK_SIZE. rewrite make_chunks_lookup by lia.
  pose proof (Nat.div_mod_eq j 400) as Hj.
  pose proof (Nat.mod_upper_bound j 400) as Hm.
  remember (j / 400) as q eqn:Eq. remember (j mod 400) as r eqn:Er. clear Eq Er.
  case_decide as Hlt; simpl.
  - unfold slice. rewrite lookup_take_lt by lia. rewrite lookup_drop. f_equal. lia.
  - symmetry. apply lookup_ge_None. lia.
Qed.

(** ** Inputs that stop the run *)

Section Stops.

Variable converse : nat → request → outcome.
Variable soup_get_text : pystr → outcome.

Lemma extract_short text : length text ≤ 10 → extract_sentences_from_text text = [].
Proof.
  intros Hlen. destruct (extract_sentences_from_text text) as [|u l] eqn:E; [done|].
  exfalso. pose proof (extracted_from_piece text u) as H.
  rewrite E in H. destruct H as (p & Hp & -> & Hu); [left|].
  pose proof (segments_pieces text _ (split_sentences_segments text)) as Hall.
  rewrite Forall_forall in Hall. destruct (Hall p Hp) as [_ (a & b & Et)].
  pose proof (strip_length p). apply (f_equal length) in Et.
  rewrite !length_app in Et. lia.
Qed.

End Stops.

(** X12. A plain-text or XML file of at most 10 characters yields no
    unit, so the run stops after the banner: status 0, no completion
    call, no file written. *)
Theorem short_document_is_not_analyzed
    (converse : nat → request → outcome) (soup_get_text : pystr → outcome)
    (prog file_path content : pystr) (w : world) :
  fs w !! file_path = Some (Text content) →
  length content ≤ 10 →
  file_ext file_path = lit "txt" ∨ file_ext file_path = lit "xml" →
  (read_file_sentences soup_get_text file_path w).1 = []
  ∧ main converse soup_get_text [prog; file_path] w
    = (Exit0, World (fs w) (write_error w) (stdout w ++ [MsgStarting; MsgFile file_path])
                (calls w)).
Proof.
  intros Hfile Hlen Hext.
  assert (∀ w0, fs w0 !! file_path = Some (Text content) →
            read_file_sentences soup_get_text file_path w0 = ([], w0)) as Hread.
  { intros w0 Hw0. unfold read_file_sentences.
    destruct Hext as [-> | ->]; cbn [bool_decide];
      rewrite ?bool_decide_eq_false_2 by by_computation;
      rewrite bool_decide_eq_true_2 by done.
    - unfold read_txt_sentences, read_text, mbind, M_bind. rewrite Hw0.
      by rewrite extract_short.
    - unfold read_xml_sentences, read_text, mbind, M_bind. rewrite Hw0.
      rewrite extract_short; [done|].
      unfold xml_limit_text.
      assert (length (xml_plain_text content) ≤ 10) as Hx.
      { rewrite xml_plain_text_stripped.
        etrans; [apply strip_length|]. etrans; [apply sub_spaces_go_length|].
        etrans; [apply sub_tags_go_length|]. done. }
      assert ((XML_TEXT_LIMIT <? length (xml_plain_text content)) = false) as ->; [|done].
      apply Nat.ltb_ge. etrans; [exact Hx|]. apply Nat.leb_le. vm_compute. reflexivity. }
  split; [by rewrite Hread|].
  rewrite main_no_sentences; [| by rewrite Hfile | unfold loading; by rewrite Hread].
  unfold loading. rewrite Hread by done. by rewrite <- !app_assoc.
Qed.

(** A memo of ten characters. *)
Lemma short_document_is_not_analyzed_witness :
  (read_file_sentences Sample.soup_get_text (lit "memo.txt")
     (Sample.world_with (lit "memo.txt") (lit "Too short."))).1 = []
  ∧ main Sample.converse Sample.soup_get_text [lit "chunked_analyzer.py"; lit "memo.txt"]
      (Sample.world_with (lit "memo.txt") (lit "Too short."))
    = (Exit0,
       World (fs (Sample.world_with (lit "memo.txt") (lit "Too short.")))
         (write_error (Sample.world_with (lit "memo.txt") (lit "Too short.")))
         (stdout (Sample.world_with (lit "memo.txt") (lit "Too short."))
            ++ [MsgStarting; MsgFile (lit "memo.txt")])
         (calls (Sample.world_with (lit "memo.txt") (lit "Too short.")))).
Proof.
  apply (short_document_is_not_analyzed Sample.converse Sample.soup_get_text
           (lit "chunked_analyzer.py") (lit "memo.txt") (lit "Too short.")
           (Sample.world_with (lit "memo.txt") (lit "Too short."))).
  - apply world_with_lookup.
  - vm_compute. lia.
  - left. vm_compute. reflexivity.
Defined.

(** X13. The loader never raises.  When a file of a supported format
    cannot be read, or BeautifulSoup fails on an HTML file, the run prints
    one error line for that format after the banner and ends with status
    0, without any completion call and without writing a file. *)
Theorem unreadable_input_is_reported
    (converse : nat → request → outcome) (soup_get_text : pystr → outcome)
    (prog file_path : pystr) (w : world) (e : pystr) :
  file_ext file_path ∈ [lit "xml"; lit "html"; lit "txt"] →
  fs w !! file_path = Some (Unreadable e)
  ∨ (file_ext file_path = lit "html"
     ∧ ∃ content, fs w !! file_path = Some (Text content) ∧ soup_get_text content = Raised e) →
  ∃ msg,
    (file_ext file_path = lit "xml" ∧ msg = MsgErrorXML e
     ∨ file_ext file_path = lit "html" ∧ msg = MsgErrorHTML e
     ∨ file_ext file_path = lit "txt" ∧ msg = MsgErrorTXT e)
    ∧ main converse soup_get_text [prog; file_path] w
      = (Exit0, World (fs w) (write_error w)
                  (stdout w ++ [MsgStarting; MsgFile file_path; msg]) (calls w)).
Proof.
  intros Hext Hcase.
  assert (is_Some (fs w !! file_path)) as Hfile
    by (destruct Hcase as [->|(_ & c & -> & _)]; eauto).
  assert (∃ msg,
            (file_ext file_path = lit "xml" ∧ msg = MsgErrorXML e
             ∨ file_ext file_path = lit "html" ∧ msg = MsgErrorHTML e
             ∨ file_ext file_path = lit "txt" ∧ msg = MsgErrorTXT e)
            ∧ ∀ w0, fs w0 !! file_path = fs w !! file_path →
                read_file_sentences soup_get_text file_path w0
                = ([], World (fs w0) (write_error w0) (stdout w0 ++ [msg]) (calls w0)))
    as (msg & Hmsg & Hread).
  { unfold read_file_sentences.
    destruct Hcase as [Hu|(Hhtml & content & Hc & Hsoup)].
    - apply elem_of_cons in Hext as [Ex|Hext];
        [|apply elem_of_cons in Hext as [Eh|Hext];
          [|apply elem_of_cons in Hext as [Et|Hext]; [|by apply elem_of_nil in Hext]]].
      + exists (MsgErrorXML e). split; [by left|]. intros w0 Hw0. rewrite Ex.
        rewrite bool_decide_eq_true_2 by done.
        unfold read_xml_sentences, read_text, mbind, M_bind. by rewrite Hw0, Hu.
      + exists (MsgErrorHTML e). split; [right; by left|]. intros w0 Hw0. rewrite Eh.
        cbn [bool_decide]. rewrite bool_decide_eq_false_2 by by_computation.
        rewrite bool_decide_eq_true_2 by done.
        unfold read_html_sentences, read_text, mbind, M_bind. by rewrite Hw0, Hu.
      + exists (MsgErrorTXT e). split; [right; by right|]. intros w0 Hw0. rewrite Et.
        cbn [bool_decide]. rewrite !bool_decide_eq_false_2 by by_computation.
        rewrite bool_decide_eq_true_2 by done.
        unfold read_txt_sentences, read_text, mbind, M_bind. by rewrite Hw0, Hu.
    - exists (MsgErrorHTML e). split; [right; by left|]. intros w0 Hw0. rewrite Hhtml.
      cbn [bool_decide]. rewrite bool_decide_eq_false_2 by by_computation.
      rewrite bool_decide_eq_true_2 by done.
      unfold read_html_sentences, read_text, mbind, M_bind. by rewrite Hw0, Hc, Hsoup. }
  exists msg. split; [done|].
  rewrite main_no_sentences; [| done | unfold loading; by rewrite Hread].
  unfold loading. rewrite Hread by done. cbn [snd fs write_error stdout calls].
  by rewrite <- !app_assoc.
Qed.

(** A directory given as an XML file. *)
Lemma unreadable_input_is_reported_witness :
  let e := lit "[Errno 21] Is a directory" in
  let w := World {[ lit "bills.xml" := Unreadable e ]} (λ _, None) [] [] in
  ∃ msg,
    (file_ext (lit "bills.xml") = lit "xml" ∧ msg = MsgErrorXML e
     ∨ file_ext (lit "bills.xml") = lit "html" ∧ msg = MsgErrorHTML e
     ∨ file_ext (lit "bills.xml") = lit "txt" ∧ msg = MsgErrorTXT e)
    ∧ main Sample.converse Sample.soup_get_text [lit "chunked_analyzer.py"; lit "bills.xml"] w
      = (Exit0, World (fs w) (write_error w)
                  (stdout w ++ [MsgStarting; MsgFile (lit "bills.xml"); msg]) (calls w)).
Proof.
  apply (unreadable_input_is_reported Sample.converse Sample.soup_get_text
           (lit "chunked_analyzer.py") (lit "bills.xml")
           (World {[ lit "bills.xml" := Unreadable (lit "[Errno 21] Is a directory") ]}
              (λ _, None) [] [])
           (lit "[Errno 21] Is a directory")).
  - by_computation.
  - left. apply lookup_singleton_eq.
Defined.

(** ** The dashboard and the analyzer *)
Section Dashboard.

Lemma file_ext_last_part filename :
  file_ext filename = lower (last_part (str_split "." filename))
  ∧ ("."%char ∉ last_part (str_split "." filename)).
Proof.
  unfold last_part, str_split.
  destruct (last_occurrence "." filename) as [Hno|(pre & suf & -> & Hsuf)].
  - rewrite file_ext_dotless by done. by rewrite split_on_no_sep.
  - rewrite file_ext_after_last_dot by done. by rewrite split_on_last.
Qed.

Lemma elem_of_middle (c : ascii) pre suf : c ∈ pre ++ c :: suf.
Proof. apply elem_of_app. right. left. Qed.

Lemma rsplit1_after_last_dot pre suf :
  "."%char ∉ suf → rsplit1 "." (pre ++ "."%char :: suf) = [pre; suf].
Proof.
  intros Hsuf. unfold rsplit1.
  destruct (rfind_spec "." (pre ++ "."%char :: suf)) as [[Hno _]|(pre' & suf' & E & Hsuf' & ->)].
  - exfalso. apply Hno. apply elem_of_middle.
  - apply last_separator_unique in E as Epre; [|done..]. subst pre'.
    apply app_inv_head in E. injection E as <-.
    assert ((Z.of_nat (length pre) <? 0)%Z = false) as -> by (apply Z.ltb_ge; lia).
    rewrite Nat2Z.id, take_app_length.
    replace (length pre + 1) with (length (pre ++ ["."%char]))
      by (rewrite length_app; simpl; lia).
    by rewrite (cons_middle "."%char pre suf), app_assoc, drop_app_length.
Qed.

Lemma glob_match_literal l : ∀ pattern name,
  "*"%char ∉ l → glob_match (l ++ pattern) (l ++ name) = glob_match pattern name.
Proof.
  induction l as [|c l IH]; intros pattern name Hl; [done|].
  apply not_elem_of_cons in Hl as [Hc Hl]. cbn [app glob_match].
  destruct (Ascii.eqb_spec c "*") as [->|_]; [done|].
  rewrite Ascii.eqb_refl. by apply IH.
Qed.

Lemma glob_match_star pattern middle name :
  glob_match pattern name = true → glob_match ("*"%char :: pattern) (middle ++ name) = true.
Proof.
  intros H. cbn [glob_match]. rewrite Ascii.eqb_refl.
  induction middle as [|c middle IH]; simpl.
  - destruct name; by rewrite H.
  - destruct (glob_match pattern (c :: middle ++ name)); [done | exact IH].
Qed.

Lemma allowed_file_tag filename :
  allowed_file filename = Some true → file_ext filename ∈ ALLOWED_EXTENSIONS.
Proof.
  unfold allowed_file.
  destruct (last_occurrence "." filename) as [Hno|(pre & suf & -> & Hsuf)].
  - by rewrite bool_decide_eq_false_2.
  - rewrite bool_decide_eq_true_2 by apply elem_of_middle.
    rewrite rsplit1_after_last_dot by done. cbn [lookup list_lookup].
    rewrite file_ext_after_last_dot by done.
    intros [= H]. by apply bool_decide_eq_true_1 in H.
Qed.

Lemma allowed_file_pdf filename :
  file_ext filename = lit "pdf" →
  allowed_file filename = Some true ↔ "."%char ∈ filename.
Proof.
  intros Hpdf. unfold allowed_file.
  destruct (last_occurrence "." filename) as [Hno|(pre & suf & -> & Hsuf)].
  - rewrite bool_decide_eq_false_2 by done. split; [done | by intros ?].
  - rewrite bool_decide_eq_true_2 by apply elem_of_middle.
    rewrite rsplit1_after_last_dot by done. cbn [lookup list_lookup].
    rewrite file_ext_after_last_dot in Hpdf by done. rewrite Hpdf.
    split; [intros _; apply elem_of_middle | intros _; f_equal; by_computation].
Qed.

End Dashboard.

(** X14. [allowed_file] never raises, and it accepts a name exactly
    when the name has a ['.'] and the format tag that the analyzer would
    compute for it is one of xml, html, pdf, txt. *)
Theorem allowed_file_spec (filename : pystr) :
  allowed_file filename
  = Some (bool_decide ("."%char ∈ filename ∧ file_ext filename ∈ ALLOWED_EXTENSIONS)).
Proof.
  unfold allowed_file.
  destruct (last_occurrence "." filename) as [Hno|(pre & suf & -> & Hsuf)].
  - rewrite bool_decide_eq_false_2 by done. f_equal. symmetry.
    apply bool_decide_eq_false_2. by intros [? _].
  - rewrite bool_decide_eq_true_2 by apply elem_of_middle.
    rewrite rsplit1_after_last_dot by done. cbn [lookup list_lookup].
    rewrite file_ext_after_last_dot by done. f_equal.
    apply bool_decide_ext. split; [|by intros [_ ?]].
    intros H. split; [apply elem_of_middle | done].
Qed.

(** X15. [upload_file] checks the uploaded name with [allowed_file],
    secures it, and gives the analyzer a temporary path whose suffix is
    the last dot-separated part of the secured name.  Whatever
    [secure_filename] does and whatever the temporary prefix, the format
    tag of that path is the tag of the secured name.  Hence a secured
    name whose tag is none of xml, html, txt is answered by the loader
    with the unsupported-type message and no unit; and when securing
    keeps the tag of the uploaded name, an accepted name whose tag is not
    "pdf" reaches one of the three readers, while a name with the tag
    "pdf", which [allowed_file] accepts, never does. *)
Theorem upload_keeps_format_tag
    (secure_filename : pystr → pystr) (soup_get_text : pystr → outcome)
    (tmp_prefix raw_name : pystr) (w : world) :
  let filename := secure_filename raw_name in
  let tmp_file_path := upload_tmp_path secure_filename tmp_prefix raw_name in
  file_ext tmp_file_path = file_ext filename
  ∧ (file_ext filename ∉ [lit "xml"; lit "html"; lit "txt"] →
       read_file_sentences soup_get_text tmp_file_path w
       = ([], World (fs w) (write_error w)
                (stdout w ++ [MsgUnsupported (file_ext filename)]) (calls w)))
  ∧ (file_ext filename = file_ext raw_name →
       (allowed_file raw_name = Some true → file_ext raw_name ≠ lit "pdf" →
          file_ext tmp_file_path ∈ [lit "xml"; lit "html"; lit "txt"])
       ∧ (file_ext raw_name = lit "pdf" →
            (allowed_file raw_name = Some true ↔ "."%char ∈ raw_name)
            ∧ read_file_sentences soup_get_text tmp_file_path w
              = ([], World (fs w) (write_error w) (stdout w ++ [MsgUnsupported (lit "pdf")])
                       (calls w)))).
Proof.
  intros filename tmp_file_path.
  destruct (file_ext_last_part filename) as [Eext Hno].
  assert (file_ext tmp_file_path = file_ext filename) as E.
  { subst tmp_file_path. unfold upload_tmp_path, upload_suffix. fold filename.
    change (lit ".") with ["."%char]. cbn [app].
    rewrite file_ext_after_last_dot by done. by rewrite Eext. }
  assert (file_ext filename ∉ [lit "xml"; lit "html"; lit "txt"] →
          read_file_sentences soup_get_text tmp_file_path w
          = ([], World (fs w) (write_error w)
                   (stdout w ++ [MsgUnsupported (file_ext filename)]) (calls w))) as Hread.
  { intros Hnot. rewrite read_file_sentences_unsupported; rewrite E; done. }
  split; [done|]. split; [done|]. intros Hsame. split.
  { intros Hallowed Hnot. rewrite E, Hsame. apply allowed_file_tag in Hallowed as Hin.
    unfold ALLOWED_EXTENSIONS in Hin.
    apply elem_of_cons in Hin as [->|Hin]; [left|].
    apply elem_of_cons in Hin as [->|Hin]; [right; left|].
    apply elem_of_cons in Hin as [Hpdf|Hin]; [done|].
    apply elem_of_cons in Hin as [->|Hin]; [right; right; left | by apply elem_of_nil in Hin]. }
  intros Hpdf. split.
  - rewrite allowed_file_pdf by done. done.
  - rewrite Hread; rewrite Hsame, Hpdf; [done | by_computation].
Qed.

(** The upload of "My Report.PDF", secured as "My_Report.PDF". *)
Lemma upload_keeps_format_tag_witness :
  let w := Sample.world_with (lit "/tmp/tmpab12cd.PDF") Sample.note in
  let tmp_file_path :=
    upload_tmp_path Sample.secure_filename (lit "/tmp/tmpab12cd") (lit "My Report.PDF") in
  Sample.secure_filename (lit "My Report.PDF") = lit "My_Report.PDF"
  ∧ tmp_file_path = lit "/tmp/tmpab12cd.PDF"
  ∧ allowed_file (lit "My Report.PDF") = Some true
  ∧ read_file_sentences Sample.soup_get_text tmp_file_path w
    = ([], World (fs w) (write_error w) (stdout w ++ [MsgUnsupported (lit "pdf")]) (calls w)).
Proof.
  intros w tmp_file_path.
  destruct (upload_keeps_format_tag Sample.secure_filename Sample.soup_get_text
              (lit "/tmp/tmpab12cd") (lit "My Report.PDF") w)
    as (_ & _ & H).
  destruct H as [_ H]; [vm_compute; reflexivity|].
  destruct H as [Hallowed Hread]; [vm_compute; reflexivity|].
  split; [vm_compute; reflexivity|]. split; [vm_compute; reflexivity|].
  split; [apply Hallowed; by_computation | exact Hread].
Defined.

(** X16. The artifact of every run is a plain name of the working
    directory (it contains no ['/']) that matches the pattern
    "consolidated_analysis_*.txt" under which [get_latest_analysis] looks
    for analyses. *)
Theorem artifact_matches_dashboard_pattern (file_path : pystr) :
  glob_match ANALYSIS_PATTERN (output_file_of file_path) = true
  ∧ ("/"%char ∉ output_file_of file_path)
  ∧ ∃ base, output_file_of file_path = lit "consolidated_analysis_" ++ base ++ lit ".txt"
            ∧ ∃ rest, basename file_path = base ++ rest.
Proof.
  unfold output_file_of. cbn zeta.
  set (base := (splitext (basename file_path)).1).
  split; [|split].
  - change ANALYSIS_PATTERN
      with (lit "consolidated_analysis_" ++ "*"%char :: lit ".txt").
    rewrite glob_match_literal by by_computation.
    by apply glob_match_star.
  - destruct (basename_spec file_path) as [Hslash _].
    assert ("/"%char ∉ base) as Hbase.
    { subst base.
      destruct (splitext_spec (basename file_path)) as [->|(suf & Es & _)]; [done|].
      rewrite Es in Hslash. rewrite not_elem_of_app in Hslash. by destruct Hslash. }
    rewrite !not_elem_of_app. split; [by_computation|]. split; [done | by_computation].
  - exists base. split; [done|]. subst base.
    destruct (splitext_spec (basename file_path)) as [->|(suf & Es & _)].
    + exists []. by rewrite app_nil_r.
    + by eexists.
Qed.

(** ** Numbered units are distinct *)
Section Numbering.

Lemma pretty_N_char_digit x : is_digit (pretty_N_char x) = true.
Proof. unfold pretty_N_char. by repeat case_match. Qed.

Lemma pretty_N_go_digits x : ∀ s,
  ∃ digits, list_ascii_of_string (pretty_N_go x s) = digits ++ list_ascii_of_string s
            ∧ Forall (λ c, is_digit c = true) digits.
Proof.
  induction (N.lt_wf_0 x) as [x _ IH]. intros s.
  assert (x = 0 ∨ 0 < x)%N as [->|Hx] by lia.
  - exists []. by rewrite pretty_N_go_0.
  - rewrite pretty_N_go_step by done.
    destruct (IH (x `div` 10)%N (N.div_lt x 10 Hx eq_refl)
                (String (pretty_N_char (x `mod` 10)) s)) as (digits & E & Hd).
    exists (digits ++ [pretty_N_char (x `mod` 10)%N]). split.
    + rewrite E. simpl. by rewrite <- app_assoc.
    + apply Forall_app. split; [done|]. constructor; [|done]. apply pretty_N_char_digit.
Qed.

Lemma str_of_nat_digits n : Forall (λ c, is_digit c = true) (str_of_nat n).
Proof.
  unfold str_of_nat, lit, pretty, pretty_nat, pretty, pretty_N.
  case_decide; [by repeat constructor|].
  destruct (pretty_N_go_digits (N.of_nat n) "") as (digits & -> & Hd).
  simpl. by rewrite app_nil_r.
Qed.

Lemma str_of_nat_inj n m : str_of_nat n = str_of_nat m → n = m.
Proof.
  unfold str_of_nat, lit. intros E.
  apply (f_equal string_of_list_ascii) in E.
  rewrite !string_of_list_ascii_of_string in E. by apply pretty_nat_inj in E.
Qed.

Lemma first_separator_unique {A} (c : A) a : ∀ a' b b',
  a ++ c :: b = a' ++ c :: b' → c ∉ a → c ∉ a' → a = a'.
Proof.
  induction a as [|x a IH]; intros [|x' a'] b b' E Ha Ha'; simpl in E.
  - done.
  - injection E as <- _. exfalso. apply Ha'. left.
  - injection E as -> _. exfalso. apply Ha. left.
  - injection E as -> E. f_equal. apply (IH a' b b' E).
    + by apply not_elem_of_cons in Ha as [_ ?].
    + by apply not_elem_of_cons in Ha' as [_ ?].
Qed.

Lemma xml_phrase_inj i s j s' : xml_phrase i s = xml_phrase j s' → i = j.
Proof.
  unfold xml_phrase. intros E. apply app_inv_head in E.
  change (lit ": ") with (":"%char :: [" "%char]) in E. cbn [app] in E.
  assert (∀ n, ":"%char ∉ str_of_nat n) as Hcolon.
  { intros n Hin. pose proof (str_of_nat_digits n) as Hd.
    rewrite Forall_forall in Hd. by specialize (Hd _ Hin). }
  apply first_separator_unique in E; [|done..].
  apply str_of_nat_inj in E. lia.
Qed.

End Numbering.

(** X17. The units of an XML document are pairwise distinct, even
    when the document repeats a sentence: the number in the prefix tells
    the position. *)
Theorem xml_units_are_distinct (path : pystr) (w : world) :
  NoDup (read_xml_sentences path w).1
  ∧ ∀ i j s s', xml_phrase i s = xml_phrase j s' → i = j.
Proof.
  split; [|intros i j s s'; apply xml_phrase_inj].
  unfold read_xml_sentences, read_text, print, mbind, M_bind, mret, M_ret.
  destruct (fs w !! path) as [[content|e]|]; simpl; try apply NoDup_nil_2.
  apply NoDup_alt. intros i j u Hi Hj.
  assert (∀ k, xml_number_sentences
                 (extract_sentences_from_text (xml_limit_text (xml_plain_text content))) !! k
               = Some u → ∃ body, u = xml_phrase k body) as Hform.
  { intros k [(_ & s & _ & ->)|(-> & _ & ->)]%xml_number_sentences_lookup; [by eexists|].
    by exists (lit "[Additional content truncated for performance]"). }
  destruct (Hform i Hi) as [b Eb]. destruct (Hform j Hj) as [b' Eb'].
  rewrite Eb in Eb'. by apply xml_phrase_inj in Eb'.
Qed.

(** ** Text without boundaries, and the amount of text kept *)
Section Amount.

Lemma split_sentences_no_boundary text :
  has_boundary text = false → Re.split_sentences text = [text].
Proof.
  intros H. symmetry.
  apply (segments_unique text [text]); [by constructor | apply split_sentences_segments].
Qed.

Lemma segments_total_length text pieces :
  segments text pieces → sum_list (length <$> pieces) ≤ length text.
Proof.
  induction 1 as [p Hp|p gap rest pieces Hp Hlook Hne Hgap Hrest _ IH]; [simpl; lia|].
  change (sum_list (length <$> p :: pieces))
    with (length p + sum_list (length <$> pieces)).
  rewrite !length_app. lia.
Qed.

Lemma extract_total_length_pieces pieces :
  sum_list (length <$> (strip <$> filter (λ s, 10 < length (strip s)) pieces))
  ≤ sum_list (length <$> pieces).
Proof.
  induction pieces as [|p pieces IH]; [done|].
  rewrite filter_cons. pose proof (strip_length p).
  change (sum_list (length <$> p :: pieces))
    with (length p + sum_list (length <$> pieces)).
  case_decide; [|lia]. rewrite fmap_cons.
  change (sum_list (length <$> strip p :: ?l))
    with (length (strip p) + sum_list (length <$> l)).
  lia.
Qed.

Lemma extracted_units_lengths text :
  Forall (λ u, 11 ≤ length u) (extract_sentences_from_text text).
Proof.
  apply Forall_forall. intros u (p & _ & _ & Hlen)%extracted_from_piece. lia.
Qed.

Lemma extract_total_length text :
  sum_list (length <$> extract_sentences_from_text text) ≤ length text.
Proof.
  rewrite extract_sentences_filter.
  etrans; [apply extract_total_length_pieces|].
  apply segments_total_length, split_sentences_segments.
Qed.

End Amount.

(** X18. A text in which no terminator is followed by whitespace is
    not split: it gives one unit, the whole text trimmed, when that has
    more than 10 characters, and no unit otherwise. *)
Theorem unpunctuated_text_is_one_unit (text : pystr) :
  has_boundary text = false →
  extract_sentences_from_text text
  = if 10 <? length (strip text) then [strip text] else [].
Proof.
  intros H. unfold extract_sentences_from_text. cbn zeta.
  rewrite split_sentences_no_boundary by done. cbn [mbind list_bind].
  rewrite app_nil_r.
  destruct (10 <? length (strip text)) eqn:E; [|by rewrite andb_false_r].
  rewrite bool_decide_eq_false_2; [done|].
  intros Enil. rewrite Enil in E. done.
Qed.

(** A heading without punctuation. *)
Lemma unpunctuated_text_is_one_unit_witness :
  extract_sentences_from_text (lit "  Title 12 - Banks and banking  ")
  = if 10 <? length (strip (lit "  Title 12 - Banks and banking  "))
    then [strip (lit "  Title 12 - Banks and banking  ")] else [].
Proof.
  apply (unpunctuated_text_is_one_unit (lit "  Title 12 - Banks and banking  ")).
  vm_compute. reflexivity.
Defined.

(** X19. The units never hold more text than the document: their
    lengths add up to at most the length of the text, so no part of the
    text is returned twice. *)
Theorem units_do_not_exceed_text (text : pystr) :
  sum_list (length <$> extract_sentences_from_text text) ≤ length text
  ∧ length (extract_sentences_from_text text) * 11 ≤ length text.
Proof.
  split; [apply extract_total_length|].
  etrans; [|apply extract_total_length].
  pose proof (extracted_units_lengths text) as H.
  induction H as [|u l Hu _ IH]; [done|].
  change (sum_list (length <$> u :: l)) with (length u + sum_list (length <$> l)).
  simpl length. lia.
Qed.

(** ** The size of what an XML document sends *)
Section XmlSize.

Lemma str_of_nat_short n : n ≤ 201 → length (str_of_nat n) ≤ 3.
Proof.
  intros Hn.
  assert (forallb (λ m, length (str_of_nat m) <=? 3) (seq 0 202) = true) as Hall
    by (vm_compute; reflexivity).
  rewrite forallb_forall in Hall. apply Nat.leb_le, Hall, in_seq. lia.
Qed.

Lemma xml_phrase_length i s :
  i < 201 → length (xml_phrase i s) ≤ 16 + length s.
Proof.
  intros Hi. unfold xml_phrase. rewrite !length_app.
  pose proof (str_of_nat_short (i + 1)). simpl length at 1 3. lia.
Qed.

Lemma imap_xml_phrase_total l : ∀ start,
  start + length l ≤ 201 →
  sum_list (length <$> imap (λ k, xml_phrase (start + k)) l)
  ≤ 16 * length l + sum_list (length <$> l).
Proof.
  induction l as [|s l IH]; intros start Hlen; [done|].
  rewrite imap_cons, !fmap_cons. cbn beta. rewrite Nat.add_0_r.
  pose proof (xml_phrase_length start s) as Hs. simpl in Hlen.
  remember (length (xml_phrase start s)) as a eqn:Ea. clear Ea.
  assert (sum_list (length <$> imap ((λ k, xml_phrase (start + k)) ∘ S) l)
          ≤ 16 * length l + sum_list (length <$> l)) as Htail.
  { etrans; [|apply (IH (S start)); lia].
    apply Nat.eq_le_incl. f_equal. f_equal. apply imap_ext. intros k x _. simpl.
    f_equal. lia. }
  change (sum_list (a :: ?r)) with (a + sum_list r).
  change (sum_list (length s :: ?r)) with (length s + sum_list r).
  cbn [length]. lia.
Qed.

Lemma sum_list_take_length (l : list pystr) n :
  sum_list (length <$> take n l) ≤ sum_list (length <$> l).
Proof.
  revert n. induction l as [|s l IH]; intros [|n]; simpl; try lia.
  specialize (IH n). apply Nat.add_le_mono_l. exact IH.
Qed.

Lemma xml_limit_text_length text : length (xml_limit_text text) ≤ XML_TEXT_LIMIT + 31.
Proof.
  unfold xml_limit_text. destruct (XML_TEXT_LIMIT <? length text) eqn:E.
  - apply Nat.ltb_lt in E. rewrite length_app, length_take_le by lia. done.
  - apply Nat.ltb_ge in E. lia.
Qed.

End XmlSize.

(** X20. Whatever the size of an XML file, the units it yields hold
    at most 50,000 + 3,293 characters in all: at most 50,031 characters of
    text are segmented, at most 200 sentences are kept, and the numbering
    and the final marker add at most 3,262 characters. *)
Theorem xml_units_total_size (path : pystr) (w : world) :
  sum_list (length <$> (read_xml_sentences path w).1) ≤ XML_TEXT_LIMIT + 3293.
Proof.
  unfold read_xml_sentences, read_text, print, mbind, M_bind, mret, M_ret.
  destruct (fs w !! path) as [[content|e]|]; cbn [fst]; try apply Nat.le_0_l.
  set (raw := extract_sentences_from_text (xml_limit_text (xml_plain_text content))).
  assert (sum_list (length <$> raw) ≤ XML_TEXT_LIMIT + 31) as Hraw.
  { etrans; [apply extract_total_length | apply xml_limit_text_length]. }
  remember XML_TEXT_LIMIT as limit eqn:El. clear El.
  destruct (decide (XML_SENTENCE_LIMIT < length raw)) as [Hlt|Hge].
  - rewrite xml_number_sentences_over by done. unfold XML_SENTENCE_LIMIT in *.
    rewrite fmap_app, sum_list_with_app.
    pose proof (imap_xml_phrase_total (take 200 raw) 0) as Hsum.
    rewrite length_take_le in Hsum by lia. specialize (Hsum ltac:(lia)).
    pose proof (sum_list_take_length raw 200).
    assert (sum_list (length <$> [SENTENCES_TRUNCATED]) = 62) as -> by reflexivity.
    change (imap (λ k : nat, xml_phrase (0 + k))) with (imap xml_phrase) in Hsum. lia.
  - rewrite xml_number_sentences_under by lia. unfold XML_SENTENCE_LIMIT in *.
    pose proof (imap_xml_phrase_total raw 0 ltac:(lia)) as Hsum.
    change (imap (λ k : nat, xml_phrase (0 + k))) with (imap xml_phrase) in Hsum. lia.
Qed.
